(** * AI Earnings Calendar: the data aggregator and its display helpers

    A shallow embedding of [src/app/page.tsx].

    - JavaScript strings are [string]s holding the UTF-8 encoding of the
      text; [null] and [undefined] are both [None] (every operator the page
      applies to an optional value, [??], [||], [?.], [Boolean] and
      [Array.prototype.join], treats the two alike).
    - JavaScript numbers are IEEE 754 binary64 [float]s; the numeric row
      id, which is only copied, is a [Z].
    - A [Map] is a [gmap]; only [set] and [get] are used on it.
    - The database is an oracle answering each of the three queries of the
      page; the effects of [loadUpcomingEarnings] (the queries it issues,
      the lines it logs) are recorded in a writer monad. *)

From Stdlib Require Import ZArith Floats Sorted.
From stdpp Require Import gmap strings list.

Open Scope string_scope.

(** ** JavaScript primitives used by the page *)

Module Js.

(** [Boolean(s)] of a string: the empty string is the only falsy one. *)
Definition truthy (s : string) : bool :=
  match s with
  | EmptyString => false
  | String _ _ => true
  end.

(** [Boolean(v)] of a [string | null | undefined]. *)
Definition truthy_opt (v : option string) : bool :=
  match v with
  | None => false
  | Some s => truthy s
  end.

(** [a ?? b] *)
Definition nullish {A : Type} (a : option A) (b : A) : A :=
  match a with
  | Some x => x
  | None => b
  end.

(** [a || b] where [b] is itself optional: the first operand when it is
    truthy, the second otherwise. *)
Definition or_opt (a b : option string) : option string :=
  if truthy_opt a then a else b.

(** [a || b] where [b] is a plain string. *)
Definition or_else (a : option string) (b : string) : string :=
  match a with
  | Some s => if truthy s then s else b
  | None => b
  end.

(** [v !== ""] *)
Definition strict_ne_empty (v : option string) : bool :=
  match v with
  | Some EmptyString => false
  | _ => true
  end.

(** [Array.from(new Set(xs))]: a Set keeps the first occurrence of each
    value, in insertion order. *)
Definition set_add (seen : list string) (x : string) : list string :=
  if bool_decide (x ∈ seen) then seen else seen ++ [x].

Definition array_from_set (xs : list string) : list string :=
  foldl set_add [] xs.

(** [parts.join(sep)]: absent elements are rendered as the empty string. *)
Fixpoint join (sep : string) (parts : list (option string)) : string :=
  match parts with
  | [] => ""
  | [p] => nullish p ""
  | p :: rest => nullish p "" ++ sep ++ join sep rest
  end.

(** *** [String.prototype.trim]

    The white space and line terminator code points of ECMAScript, each
    as its UTF-8 byte sequence: TAB, LF, VT, FF, CR, SPACE, U+00A0,
    U+1680, U+2000 to U+200A, U+2028, U+2029, U+202F, U+205F, U+3000 and
    U+FEFF. *)
Definition utf8 (bytes : list N) : string :=
  foldr (λ b s, String (Ascii.ascii_of_N b) s) "" bytes.

Definition white_space : list (list N) :=
  [ [9]; [10]; [11]; [12]; [13]; [32]; [194; 160]; [225; 154; 128];
    [226; 128; 128]; [226; 128; 129]; [226; 128; 130]; [226; 128; 131];
    [226; 128; 132]; [226; 128; 133]; [226; 128; 134]; [226; 128; 135];
    [226; 128; 136]; [226; 128; 137]; [226; 128; 138]; [226; 128; 168];
    [226; 128; 169]; [226; 128; 175]; [226; 129; 159]; [227; 128; 128];
    [239; 187; 191] ]%N.

(** [strip_prefix p s] is the rest of [s] after the prefix [p], if [s]
    starts with [p]. *)
Fixpoint strip_prefix (p s : string) : option string :=
  match p with
  | EmptyString => Some s
  | String a p' =>
      match s with
      | EmptyString => None
      | String b s' => if Ascii.eqb a b then strip_prefix p' s' else None
      end
  end.

(** The rest of [s] after one leading code point taken from [seqs]. *)
Fixpoint strip_one (seqs : list string) (s : string) : option string :=
  match seqs with
  | [] => None
  | p :: seqs' =>
      match strip_prefix p s with
      | Some rest => Some rest
      | None => strip_one seqs' s
      end
  end.

Fixpoint strip_all (fuel : nat) (seqs : list string) (s : string) : string :=
  match fuel with
  | O => s
  | S fuel' =>
      match strip_one seqs s with
      | Some rest => strip_all fuel' seqs rest
      | None => s
      end
  end.

Definition trimStart (s : string) : string :=
  strip_all (String.length s) (map utf8 white_space) s.

(** The end is trimmed on the reversed bytes; UTF-8 is self-synchronizing,
    so a white space sequence is a suffix of the bytes exactly when the
    text ends with that code point. *)
Definition trimEnd (s : string) : string :=
  String.rev
    (strip_all (String.length s)
       (map (λ bs, utf8 (reverse bs)) white_space) (String.rev s)).

Definition trim (s : string) : string := trimEnd (trimStart s).

End Js.

(** ** Row types *)

Module EarningsRow.
Record t : Type := mk {
  id : Z;
  isin : string;
  date : string;
  source : option string;
  created_at : string
}.
End EarningsRow.

Module CompanyRow.
Record t : Type := mk {
  isin : string;
  friendly_name : option string;
  name : option string;
  gics_sector : option string;
  gics_industry : option string;
  market_cap_millions_usd : option float;
  country : option string;
  ticker : option string
}.
End CompanyRow.

Module ReportRow.
Record t : Type := mk {
  isin : string;
  storage_url : option string;
  generated_at : option string
}.
End ReportRow.

(** [CalendarRow = EarningsRow & { company?: CompanyRow; report?: ReportRow }]:
    one flat object. *)
Module CalendarRow.
Record t : Type := mk {
  id : Z;
  isin : string;
  date : string;
  source : option string;
  created_at : string;
  company : option CompanyRow.t;
  report : option ReportRow.t
}.

(** The primary fields of a record, read back as an [EarningsRow]. *)
Definition earnings (row : t) : EarningsRow.t :=
  EarningsRow.mk (id row) (isin row) (date row) (source row) (created_at row).
End CalendarRow.

(** ** The database client

    A query of the client resolves to a response object [{ data, error }];
    the client never rejects.  The response type the client declares,
    [PostgrestResponseSuccess<T> | PostgrestResponseFailure], is a union: a
    success carries the rows (the page still guards against [data] being
    [null]) and has [error: null]; a failure carries the error and has
    [data: null].  [data] and [error] below are the two fields the page
    destructures. *)

Module Supabase.

Record PostgrestError : Type := { message : string }.

Inductive Response (A : Type) : Type :=
| Success (rows : option (list A))
| Failure (err : PostgrestError).

Arguments Success {A} rows.
Arguments Failure {A} err.

Definition data {A : Type} (r : Response A) : option (list A) :=
  match r with
  | Success rows => rows
  | Failure _ => None
  end.

Definition error {A : Type} (r : Response A) : option PostgrestError :=
  match r with
  | Success _ => None
  | Failure err => Some err
  end.

End Supabase.

Import Supabase.

(** What the page reads from its environment: the clock and the three
    tables, each table answering the one query the page sends to it.
    - [earnings_calendar d]: id, isin, date, source and created_at of the
      rows of [librarian.earnings_calendar] with [date >= d], in ascending
      date order, at most 500 of them;
    - [company isins]: the rows of [public.company] whose isin is in
      [isins];
    - [reports t isins]: the rows of [reports] with [report_type_id = t]
      whose isin is in [isins]. *)
Record World : Type := {
  clock : string;
  earnings_calendar : string → Response EarningsRow.t;
  company : list string → Response CompanyRow.t;
  reports : Z → list string → Response ReportRow.t
}.

(** ** Effects *)

Inductive Effect : Type :=
| SelectEarnings (gte_date : string)
| SelectCompany (isins : list string)
| SelectReports (report_type_id : Z) (isins : list string)
| ConsoleError (label message : string).

(** A computation yields its value together with the effects it performed,
    oldest first. *)
Definition Task (A : Type) : Type := (A * list Effect)%type.

Definition ret {A : Type} (a : A) : Task A := (a, []).

Definition bind {A B : Type} (m : Task A) (k : A → Task B) : Task B :=
  let r := k m.1 in (r.1, (m.2 ++ r.2)%list).

Notation "'await' x <- m ; k" := (bind m (λ x, k))
  (at level 10, x name, m at level 100, k at level 200,
   format "'[v' 'await'  x  <-  m ; '/' k ']'").
Notation "'perform' m ; k" := (bind m (λ _, k))
  (at level 10, m at level 100, k at level 200,
   format "'[v' 'perform'  m ; '/' k ']'").

Definition console_error (label message : string) : Task unit :=
  (tt, [ConsoleError label message]).

Definition select_earnings (w : World) (todayIso : string)
  : Task (Response EarningsRow.t) :=
  (earnings_calendar w todayIso, [SelectEarnings todayIso]).

Definition select_company (w : World) (isins : list string)
  : Task (Response CompanyRow.t) :=
  (company w isins, [SelectCompany isins]).

Definition select_reports (w : World) (report_type_id : Z) (isins : list string)
  : Task (Response ReportRow.t) :=
  (reports w report_type_id isins, [SelectReports report_type_id isins]).

(** The dependent lookups among the effects of a run. *)
Definition is_dependent_lookup (e : Effect) : bool :=
  match e with
  | SelectCompany _ | SelectReports _ _ => true
  | SelectEarnings _ | ConsoleError _ _ => false
  end.

Definition dependent_lookups (trace : list Effect) : list Effect :=
  List.filter is_dependent_lookup trace.

(** ** Display helpers *)

Definition dash : string := "—".

Record NumberFormatOptions : Type := {
  style : string;
  currency : string;
  notation : string;
  maximumFractionDigits : Z
}.

Section MarketCap.

(** [new Intl.NumberFormat(locale, options).format(x)], a service of the
    platform. *)
Variable Intl_NumberFormat : string → NumberFormatOptions → float → string.

Definition formatMarketCap (marketCapMillions : option float) : string :=
  match marketCapMillions with
  | None => dash
  | Some millions =>
      if PrimFloat.is_nan millions then dash
      else
        let dollars := (millions * 1000000)%float in
        Intl_NumberFormat "en-US"
          {| style := "currency"; currency := "USD"; notation := "compact";
             maximumFractionDigits := 1 |}
          dollars
  end.

End MarketCap.

Definition formatCompany (row : CalendarRow.t) : string :=
  let friendly := CalendarRow.company row ≫= CompanyRow.friendly_name in
  let fallback := CalendarRow.company row ≫= CompanyRow.name in
  Js.or_else (Js.or_opt friendly fallback) (CalendarRow.isin row).

(** [Boolean(value && value !== "")] *)
Definition nonempty_part (value : option string) : bool :=
  if Js.truthy_opt value then Js.strict_ne_empty value else false.

Definition formatTicker (row : CalendarRow.t) : string :=
  let ticker := Js.trim <$> (CalendarRow.company row ≫= CompanyRow.ticker) in
  let country := CalendarRow.company row ≫= CompanyRow.country in
  let parts :=
    List.filter nonempty_part [ticker; Some (CalendarRow.isin row); country] in
  Js.join " • " parts.

(** The ticker line of a table row in [Home]: [tickerLine || row.isin]. *)
Definition tickerLine (row : CalendarRow.t) : string :=
  Js.or_else (Some (formatTicker row)) (CalendarRow.isin row).

(** ** The aggregator *)

(** [Array.from(new Set(earningsRows.map((row) => row.isin).filter(Boolean)))] *)
Definition isins_of (earningsRows : list EarningsRow.t) : list string :=
  Js.array_from_set (List.filter Js.truthy (map EarningsRow.isin earningsRows)).

(** The two members of the [Promise.all]: a query when there are
    identifiers, an already resolved empty response otherwise. *)
Definition lookup_companies (w : World) (isins : list string)
  : Task (Response CompanyRow.t) :=
  if (0 <? length isins)%nat then select_company w isins
  else ret (Success (Some [])).

Definition lookup_reports (w : World) (isins : list string)
  : Task (Response ReportRow.t) :=
  if (0 <? length isins)%nat then select_reports w 6 isins
  else ret (Success (Some [])).

(** [rows.reduce((map, company) => map.set(company.isin, company), new Map())] *)
Definition companies_of (rows : list CompanyRow.t) : gmap string CompanyRow.t :=
  foldl (λ map company, <[CompanyRow.isin company := company]> map) ∅ rows.

(** [rows.filter((report) => report.storage_url).reduce(..., new Map())] *)
Definition reports_of (rows : list ReportRow.t) : gmap string ReportRow.t :=
  foldl (λ map report, <[ReportRow.isin report := report]> map) ∅
    (List.filter (λ report, Js.truthy_opt (ReportRow.storage_url report)) rows).

(** [{ ...row, company: companies.get(row.isin), report: reports.get(row.isin) }] *)
Definition enrich (companies : gmap string CompanyRow.t)
    (reports : gmap string ReportRow.t) (row : EarningsRow.t) : CalendarRow.t :=
  {| CalendarRow.id := EarningsRow.id row;
     CalendarRow.isin := EarningsRow.isin row;
     CalendarRow.date := EarningsRow.date row;
     CalendarRow.source := EarningsRow.source row;
     CalendarRow.created_at := EarningsRow.created_at row;
     CalendarRow.company := companies !! EarningsRow.isin row;
     CalendarRow.report := reports !! EarningsRow.isin row |}.

Definition log_failure {A : Type} (label : string) (result : Response A)
  : Task unit :=
  match error result with
  | Some err => console_error label (message err)
  | None => ret tt
  end.

Definition todayIso_of (w : World) : string := String.substring 0 10 (clock w).

Definition loadUpcomingEarnings (w : World) : Task (list CalendarRow.t) :=
  let todayIso := todayIso_of w in
  await response <- select_earnings w todayIso;
  match error response with
  | Some err =>
      perform console_error "Failed to load earnings calendar" (message err);
      ret []
  | None =>
      let earningsRows := Js.nullish (data response) [] in
      if (length earningsRows =? 0)%nat then ret []
      else
        let isins := isins_of earningsRows in
        await companiesResult <- lookup_companies w isins;
        await reportsResult <- lookup_reports w isins;
        perform log_failure "Failed to load company metadata" companiesResult;
        perform log_failure "Failed to load report metadata" reportsResult;
        let companies := companies_of (Js.nullish (data companiesResult) []) in
        let reports := reports_of (Js.nullish (data reportsResult) []) in
        ret (map (enrich companies reports) earningsRows)
  end.

(** ** Vocabulary of the statements *)

(** The response of the primary query and the rows the page takes from it. *)
Definition primary_response (w : World) : Response EarningsRow.t :=
  earnings_calendar w (todayIso_of w).

Definition primary_rows (w : World) : list EarningsRow.t :=
  Js.nullish (data (primary_response w)) [].

(** What each member of the [Promise.all] resolves to, and the rows the
    page takes from it. *)
Definition companies_result (w : World) : Response CompanyRow.t :=
  (lookup_companies w (isins_of (primary_rows w))).1.

Definition reports_result (w : World) : Response ReportRow.t :=
  (lookup_reports w (isins_of (primary_rows w))).1.

Definition company_rows (w : World) : list CompanyRow.t :=
  Js.nullish (data (companies_result w)) [].

Definition report_rows (w : World) : list ReportRow.t :=
  Js.nullish (data (reports_result w)) [].

(** The same world with one of the dependent tables answering no rows. *)
Definition without_companies (w : World) : World :=
  {| clock := clock w;
     earnings_calendar := earnings_calendar w;
     company := λ _, Success (Some []);
     reports := reports w |}.

Definition without_reports (w : World) : World :=
  {| clock := clock w;
     earnings_calendar := earnings_calendar w;
     company := company w;
     reports := λ _ _, Success (Some []) |}.

Definition unenriched (c : CalendarRow.t) : Prop :=
  CalendarRow.company c = None ∧ CalendarRow.report c = None.

(** Last-write-wins read on the whole lookup result, for the reports: the
    report attached to a record is the last row of the lookup result
    with the identifier of the record. *)
Definition last_report_row_attached (w : World) : Prop :=
  ∀ c : CalendarRow.t,
    c ∈ (loadUpcomingEarnings w).1 →
    CalendarRow.report c =
    last (filter (λ r, ReportRow.isin r = CalendarRow.isin c) (report_rows w)).

(** The ticker line as the specification words it: the non-empty values
    among the trimmed ticker, the identifier and the country, joined by
    the separator; the bare identifier if the joined string is empty. *)
Definition present (v : option string) : list string :=
  match v with
  | Some (String a s) => [String a s]
  | Some EmptyString | None => []
  end.

Definition ticker_line_spec (ticker : option string) (isin : string)
    (country : option string) : string :=
  let joined :=
    String.concat " • "
      (present (Js.trim <$> ticker) ++ present (Some isin) ++ present country) in
  if String.eqb joined "" then isin else joined.

(** The options [formatMarketCap] hands to the number formatter. *)
Definition usd_compact : NumberFormatOptions :=
  {| style := "currency"; currency := "USD"; notation := "compact";
     maximumFractionDigits := 1 |}.

(** ** Scenarios *)

Definition isinA : string := "US0378331005".
Definition isinB : string := "US5949181045".

Definition eventA : EarningsRow.t :=
  EarningsRow.mk 1 isinA "2026-11-03" (Some "nasdaq") "2026-10-01T08:00:00Z".
Definition eventB : EarningsRow.t :=
  EarningsRow.mk 2 isinB "2026-11-04" None "2026-10-01T08:00:00Z".
Definition eventA_later : EarningsRow.t :=
  EarningsRow.mk 3 isinA "2026-11-20" None "2026-10-02T08:00:00Z".
Definition event_blank : EarningsRow.t :=
  EarningsRow.mk 4 "" "2026-11-05" None "2026-10-03T08:00:00Z".

Definition companyA : CompanyRow.t :=
  CompanyRow.mk isinA (Some "Apple") (Some "Apple Inc.") (Some "Information Technology")
    None (Some 3400000%float) (Some "US") (Some " AAPL ").
Definition companyA_stale : CompanyRow.t :=
  CompanyRow.mk isinA None (Some "Apple Computer") None None None None None.

Definition reportA : ReportRow.t :=
  ReportRow.mk isinA (Some "https://reports.example/a.pdf") (Some "2026-10-30T00:00:00Z").
Definition reportA_pending : ReportRow.t :=
  ReportRow.mk isinA None None.

Definition noon : string := "2026-11-02T12:00:00.000Z".

(** Two events A and B; the company lookup errors; the report lookup
    matches only A. *)
Definition world_company_down : World :=
  {| clock := noon;
     earnings_calendar := λ _, Success (Some [eventA; eventB]);
     company := λ _, Failure {| message := "permission denied" |};
     reports := λ _ _, Success (Some [reportA]) |}.

(** The same events; the report lookup errors. *)
Definition world_reports_down : World :=
  {| clock := noon;
     earnings_calendar := λ _, Success (Some [eventA; eventB]);
     company := λ _, Success (Some [companyA]);
     reports := λ _ _, Failure {| message := "timeout" |} |}.

(** The primary query errors. *)
Definition world_primary_down : World :=
  {| clock := noon;
     earnings_calendar := λ _, Failure {| message := "connection refused" |};
     company := λ _, Success (Some [companyA]);
     reports := λ _ _, Success (Some [reportA]) |}.

(** The only event has an empty identifier. *)
Definition world_blank_isin : World :=
  {| clock := noon;
     earnings_calendar := λ _, Success (Some [event_blank]);
     company := λ _, Success (Some [companyA]);
     reports := λ _ _, Success (Some [reportA]) |}.

(** Two events share identifier A; two company rows and two report rows
    share it too, the last report row having no storage URL yet. *)
Definition world_shared_isin : World :=
  {| clock := noon;
     earnings_calendar := λ _, Success (Some [eventA; eventB; eventA_later]);
     company := λ _, Success (Some [companyA_stale; companyA]);
     reports := λ _ _, Success (Some [reportA; reportA_pending]) |}.

(** Output records: A with its profile and report, A with a profile that
    has only a formal name, B with nothing attached. *)
Definition recordA : CalendarRow.t :=
  CalendarRow.mk 1 isinA "2026-11-03" (Some "nasdaq") "2026-10-01T08:00:00Z"
    (Some companyA) (Some reportA).
Definition recordA_stale : CalendarRow.t :=
  CalendarRow.mk 1 isinA "2026-11-03" (Some "nasdaq") "2026-10-01T08:00:00Z"
    (Some companyA_stale) None.
Definition recordB_bare : CalendarRow.t :=
  CalendarRow.mk 2 isinB "2026-11-04" None "2026-10-01T08:00:00Z" None None.

(** A formatter standing for the platform's in the examples. *)
Definition sample_format (locale : string) (options : NumberFormatOptions)
    (x : float) : string :=
  if (x =? 1500000000)%float then "$1.5B" else "$?".

(** ** The page component

    [Home] is modelled by what it puts on the page: the three figures of
    the header and, for the table, either the empty-state notice or one
    row of cells per record.  [Intl.DateTimeFormat.prototype.format]
    throws a [RangeError] on an invalid date, which aborts the render:
    the formatter yields [None] there, and so does [Home]. *)

Module DateTimeFormat.
Record Options : Type := {
  year : option string;
  month : option string;
  day : option string;
  hour : option string;
  minute : option string;
  hour12 : option bool;
  timeZoneName : option string
}.
End DateTimeFormat.

Inductive PreviewCell : Type :=
| PreviewLink (href : string)
| PreviewDash.

Record RowView : Type := {
  key : Z;
  dateCell : string;
  companyCell : string;
  tickerCell : string;
  sectorCell : string;
  industryCell : string;
  marketCapCell : string;
  sourceCell : string;
  previewCell : PreviewCell;
  insertedCell : string
}.

Inductive TableBody : Type :=
| EmptyNotice (text : string)
| TableRows (views : list RowView).

Record Page : Type := {
  totalUpcoming : nat;
  reportingToday : nat;
  sourcesLine : string;
  body : TableBody
}.

(** [rows.filter((row) => row.date === todayIso).length] *)
Definition upcomingCount (todayIso : string) (rows : list CalendarRow.t) : nat :=
  length (List.filter (λ row, String.eqb (CalendarRow.date row) todayIso) rows).

(** [Array.from(new Set(rows.map((row) => row.source ?? "Unknown")))] *)
Definition sources_of (rows : list CalendarRow.t) : list string :=
  Js.array_from_set
    (map (λ row, Js.nullish (CalendarRow.source row) "Unknown") rows).

(** [previewUrl ? <a href={previewUrl}>View preview</a> : "—"] with
    [previewUrl = row.report?.storage_url]. *)
Definition preview_of (row : CalendarRow.t) : PreviewCell :=
  let previewUrl := CalendarRow.report row ≫= ReportRow.storage_url in
  match previewUrl with
  | Some url => if Js.truthy url then PreviewLink url else PreviewDash
  | None => PreviewDash
  end.

Section Home.

(** [new Intl.NumberFormat(locale, options).format(x)] and
    [new Intl.DateTimeFormat(locale, options).format(new Date(s))],
    services of the platform. *)
Variable Intl_NumberFormat : string → NumberFormatOptions → float → string.
Variable Intl_DateTimeFormat :
  string → DateTimeFormat.Options → string → option string.

Definition formatDate (date : string) : option string :=
  Intl_DateTimeFormat "en-US"
    {| DateTimeFormat.year := Some "numeric";
       DateTimeFormat.month := Some "short";
       DateTimeFormat.day := Some "numeric";
       DateTimeFormat.hour := None;
       DateTimeFormat.minute := None;
       DateTimeFormat.hour12 := None;
       DateTimeFormat.timeZoneName := None |}
    date.

Definition formatDateTime (date : string) : option string :=
  Intl_DateTimeFormat "en-US"
    {| DateTimeFormat.year := Some "numeric";
       DateTimeFormat.month := Some "short";
       DateTimeFormat.day := Some "numeric";
       DateTimeFormat.hour := Some "numeric";
       DateTimeFormat.minute := Some "2-digit";
       DateTimeFormat.hour12 := Some false;
       DateTimeFormat.timeZoneName := Some "short" |}
    date.

(** One table row: the body of [rows.map((row) => ...)] in [Home]. *)
Definition renderRow (row : CalendarRow.t) : option RowView :=
  date ← formatDate (CalendarRow.date row);
  inserted ← formatDateTime (CalendarRow.created_at row);
  Some
    {| key := CalendarRow.id row;
       dateCell := date;
       companyCell := formatCompany row;
       tickerCell := tickerLine row;
       sectorCell :=
         Js.nullish (CalendarRow.company row ≫= CompanyRow.gics_sector) dash;
       industryCell :=
         Js.nullish (CalendarRow.company row ≫= CompanyRow.gics_industry) "";
       marketCapCell :=
         formatMarketCap Intl_NumberFormat
           (CalendarRow.company row ≫= CompanyRow.market_cap_millions_usd);
       sourceCell := Js.nullish (CalendarRow.source row) "Unknown";
       previewCell := preview_of row;
       insertedCell := inserted |}.

(** [rows.length === 0 ? <notice/> : rows.map(...)] *)
Definition renderBody (rows : list CalendarRow.t) : option TableBody :=
  if (length rows =? 0)%nat then Some (EmptyNotice "No upcoming earnings found.")
  else TableRows <$> mapM renderRow rows.

(** [renderClock] is [new Date().toISOString()] as [Home] reads it, after
    the loader has returned. *)
Definition Home (w : World) (renderClock : string) : Task (option Page) :=
  await rows <- loadUpcomingEarnings w;
  let todayIso := String.substring 0 10 renderClock in
  let count := upcomingCount todayIso rows in
  let sources := sources_of rows in
  ret (tableBody ← renderBody rows;
       Some {| totalUpcoming := length rows;
               reportingToday := count;
               sourcesLine := Js.or_else (Some (Js.join ", " (Some <$> sources))) dash;
               body := tableBody |}).

End Home.

(** ** The client initializer ([src/lib/supabase.ts])

    The module reads three environment variables when it is loaded and
    either throws or calls [createClient]. *)

Module Config.

Record Env : Type := {
  SUPABASE_PROJECT_ID : option string;
  SUPABASE_URL : option string;
  SUPABASE_SERVICE_ROLE_KEY : option string
}.

Inductive Outcome : Type :=
| Throw (message : string)
| CreateClient (supabaseUrl serviceRoleKey : string).

Definition url_error : string := "SUPABASE_URL or SUPABASE_PROJECT_ID must be set".
Definition key_error : string := "SUPABASE_SERVICE_ROLE_KEY must be set".

(** [process.env.SUPABASE_URL ?? (projectId ? `https://${projectId}.supabase.co` : undefined)] *)
Definition supabaseUrl (env : Env) : option string :=
  match SUPABASE_URL env with
  | Some url => Some url
  | None =>
      match SUPABASE_PROJECT_ID env with
      | Some projectId =>
          if Js.truthy projectId
          then Some ("https://" ++ projectId ++ ".supabase.co")
          else None
      | None => None
      end
  end.

Definition init (env : Env) : Outcome :=
  match supabaseUrl env with
  | Some url =>
      if negb (Js.truthy url) then Throw url_error
      else
        match SUPABASE_SERVICE_ROLE_KEY env with
        | Some serviceRoleKey =>
            if negb (Js.truthy serviceRoleKey) then Throw key_error
            else CreateClient url serviceRoleKey
        | None => Throw key_error
        end
  | None => Throw url_error
  end.

End Config.

(** ** The page before enrichment ([src/unnamed/part_000])

    The earlier loader sends the primary query only, to the
    [earnings_calendar] table of the default schema, and returns its rows
    as they are. *)

Module Plain.

Inductive Effect : Type :=
| SelectEarnings (gte_date : string)
| ConsoleError (label message : string).

Definition loadUpcomingEarnings (clock : string)
    (earnings_calendar : string → Response EarningsRow.t)
  : list EarningsRow.t * list Effect :=
  let todayIso := String.substring 0 10 clock in
  let response := earnings_calendar todayIso in
  match error response with
  | Some err =>
      ([], [SelectEarnings todayIso;
            ConsoleError "Failed to load earnings calendar" (message err)])
  | None => (Js.nullish (data response) [], [SelectEarnings todayIso])
  end.

End Plain.

(** ** More scenarios *)

Definition event_today : EarningsRow.t :=
  EarningsRow.mk 5 isinB "2026-11-02" (Some "Unknown") "2026-10-04T08:00:00Z".

Definition companyB : CompanyRow.t :=
  CompanyRow.mk isinB (Some "Microsoft") (Some "Microsoft Corporation")
    (Some "Information Technology") (Some "Software") (Some 3100000%float)
    (Some "US") (Some "MSFT").

(** Everything answers: two events today and later, both enriched. *)
Definition world_healthy : World :=
  {| clock := noon;
     earnings_calendar := λ _, Success (Some [event_today; eventA; eventB]);
     company := λ _, Success (Some [companyA; companyB]);
     reports := λ _ _, Success (Some [reportA]) |}.

(** A date formatter standing for the platform's: it accepts the strings
    that start with a digit. *)
Definition sample_date_format (locale : string)
    (options : DateTimeFormat.Options) (s : string) : option string :=
  match s with
  | String c _ =>
      if ((48 <=? Ascii.N_of_ascii c)%N && (Ascii.N_of_ascii c <=? 57)%N)%bool
      then Some ("<" ++ s ++ ">")
      else None
  | EmptyString => None
  end.

Definition env_project_only : Config.Env :=
  {| Config.SUPABASE_PROJECT_ID := Some "abcd1234";
     Config.SUPABASE_URL := None;
     Config.SUPABASE_SERVICE_ROLE_KEY := Some "service-key" |}.

Definition env_blank_url : Config.Env :=
  {| Config.SUPABASE_PROJECT_ID := Some "abcd1234";
     Config.SUPABASE_URL := Some "";
     Config.SUPABASE_SERVICE_ROLE_KEY := Some "service-key" |}.

Definition env_both : Config.Env :=
  {| Config.SUPABASE_PROJECT_ID := Some "abcd1234";
     Config.SUPABASE_URL := Some "https://db.example.test";
     Config.SUPABASE_SERVICE_ROLE_KEY := Some "service-key" |}.

Definition env_nothing : Config.Env :=
  {| Config.SUPABASE_PROJECT_ID := None;
     Config.SUPABASE_URL := None;
     Config.SUPABASE_SERVICE_ROLE_KEY := None |}.

(** A blank event next to A; both lookups answer for A only. *)
Definition world_mixed : World :=
  {| clock := noon;
     earnings_calendar := λ _, Success (Some [event_blank; eventA]);
     company := λ _, Success (Some [companyA]);
     reports := λ _ _, Success (Some [reportA]) |}.

(** The pages of two scenarios, rendered late in the evening of the day
    the loader ran. *)
Definition late_evening : string := "2026-11-02T23:00:00.000Z".

Definition blank_page : Page :=
  {| totalUpcoming := 0; reportingToday := 0; sourcesLine := "";
     body := EmptyNotice "" |}.

Definition page_healthy : Page :=
  Eval vm_compute in
    default blank_page
      (Home sample_format sample_date_format world_healthy late_evening).1.

Definition page_company_down : Page :=
  Eval vm_compute in
    default blank_page
      (Home sample_format sample_date_format world_company_down late_evening).1.

(** The distinct values of a list, each kept at the place of its first
    occurrence. *)
Fixpoint first_occurrences (l : list string) : list string :=
  match l with
  | [] => []
  | x :: l' => x :: filter (λ y, y ≠ x) (first_occurrences l')
  end.

(** ** Basic facts about the runs *)

Lemma load_value (w : World) :
  (loadUpcomingEarnings w).1 =
  map (enrich (companies_of (company_rows w)) (reports_of (report_rows w)))
    (primary_rows w).
Proof.
  unfold loadUpcomingEarnings, select_earnings, company_rows, report_rows,
    companies_result, reports_result, primary_rows, primary_response.
  destruct (earnings_calendar w (todayIso_of w)) as [[[|row rows]|]|err];
    reflexivity.
Qed.

Lemma load_trace (w : World) :
  (loadUpcomingEarnings w).2 =
  SelectEarnings (todayIso_of w) ::
  match error (primary_response w) with
  | Some err => [ConsoleError "Failed to load earnings calendar" (message err)]
  | None =>
      match primary_rows w with
      | [] => []
      | _ :: _ =>
          ((lookup_companies w (isins_of (primary_rows w))).2 ++
           (lookup_reports w (isins_of (primary_rows w))).2 ++
           (log_failure "Failed to load company metadata" (companies_result w)).2 ++
           (log_failure "Failed to load report metadata" (reports_result w)).2)%list
      end
  end.
Proof.
  unfold loadUpcomingEarnings, select_earnings, companies_result,
    reports_result, primary_rows, primary_response.
  destruct (earnings_calendar w (todayIso_of w)) as [[[|row rows]|]|err];
    try reflexivity.
  cbn -[isins_of lookup_companies lookup_reports log_failure].
  rewrite !app_nil_r. reflexivity.
Qed.

Lemma earnings_enrich companies reports (row : EarningsRow.t) :
  CalendarRow.earnings (enrich companies reports row) = row.
Proof. destruct row; reflexivity. Qed.

Lemma map_earnings_load (w : World) :
  map CalendarRow.earnings (loadUpcomingEarnings w).1 = primary_rows w.
Proof.
  rewrite load_value, map_map.
  induction (primary_rows w) as [|row rows IH]; [reflexivity|].
  cbn [map]. rewrite earnings_enrich. f_equal. exact IH.
Qed.

(** ** The left join *)

(** C1: the output of [loadUpcomingEarnings] has one record per row of the
    primary query, at the same position (so none is dropped or duplicated
    and the counts agree), whatever the dependent lookups answer; any
    ordering of the dates of the primary rows, ascending in particular, is
    an ordering of the dates of the output. *)
Theorem loadUpcomingEarnings_left_join (w : World) :
  length (loadUpcomingEarnings w).1 = length (primary_rows w) ∧
  map CalendarRow.earnings (loadUpcomingEarnings w).1 = primary_rows w ∧
  ∀ R : string → string → Prop,
    Sorted R (map EarningsRow.date (primary_rows w)) →
    Sorted R (map CalendarRow.date (loadUpcomingEarnings w).1).
Proof.
  split; [|split].
  - rewrite <- (map_earnings_load w). now rewrite length_map.
  - apply map_earnings_load.
  - intros R HR.
    replace (map CalendarRow.date (loadUpcomingEarnings w).1)
      with (map EarningsRow.date (primary_rows w)); [exact HR|].
    rewrite <- (map_earnings_load w), map_map. reflexivity.
Qed.

Lemma loadUpcomingEarnings_left_join_witness :
  Sorted (λ a b, String.leb a b = true)
    (map EarningsRow.date (primary_rows world_shared_isin)) ∧
  Sorted (λ a b, String.leb a b = true)
    (map CalendarRow.date (loadUpcomingEarnings world_shared_isin).1).
Proof.
  assert (H : Sorted (λ a b, String.leb a b = true)
                (map EarningsRow.date (primary_rows world_shared_isin))).
  { repeat constructor. }
  split; [exact H|].
  exact (proj2 (proj2 (loadUpcomingEarnings_left_join world_shared_isin)) _ H).
Defined.

(** C10: the record at each position of the output is the event row at
    that position of the primary result with its id, isin, date, source
    and created_at unchanged; only the optional company and report fields
    are added. *)
Theorem loadUpcomingEarnings_frame (w : World) (i : nat) (row : EarningsRow.t) :
  primary_rows w !! i = Some row →
  ∃ c : CalendarRow.t,
    (loadUpcomingEarnings w).1 !! i = Some c ∧
    CalendarRow.id c = EarningsRow.id row ∧
    CalendarRow.isin c = EarningsRow.isin row ∧
    CalendarRow.date c = EarningsRow.date row ∧
    CalendarRow.source c = EarningsRow.source row ∧
    CalendarRow.created_at c = EarningsRow.created_at row ∧
    c = CalendarRow.mk (EarningsRow.id row) (EarningsRow.isin row)
          (EarningsRow.date row) (EarningsRow.source row)
          (EarningsRow.created_at row)
          (CalendarRow.company c) (CalendarRow.report c).
Proof.
  intros Hrow. rewrite load_value.
  eexists. split.
  - rewrite list_lookup_fmap, Hrow. reflexivity.
  - repeat split; reflexivity.
Qed.

Lemma loadUpcomingEarnings_frame_witness :
  primary_rows world_shared_isin !! 2%nat = Some eventA_later ∧
  ∃ c : CalendarRow.t,
    (loadUpcomingEarnings world_shared_isin).1 !! 2%nat = Some c ∧
    CalendarRow.id c = 3%Z ∧
    CalendarRow.isin c = isinA ∧
    CalendarRow.date c = "2026-11-20" ∧
    CalendarRow.source c = None ∧
    CalendarRow.created_at c = "2026-10-02T08:00:00Z" ∧
    c = CalendarRow.mk 3 isinA "2026-11-20" None "2026-10-02T08:00:00Z"
          (CalendarRow.company c) (CalendarRow.report c).
Proof.
  split; [reflexivity|].
  apply (loadUpcomingEarnings_frame world_shared_isin 2 eventA_later).
  reflexivity.
Defined.

(** ** The short circuit *)

Lemma primary_rows_of_failure (w : World) :
  is_Some (error (primary_response w)) → primary_rows w = [].
Proof.
  unfold primary_rows. destruct (primary_response w); [|reflexivity].
  intros [err Herr]. discriminate Herr.
Qed.

(** C2: when the primary query fails, or yields no rows, the result is the
    empty sequence and no dependent lookup is among the effects of the
    run: the run consists of the primary query and, on failure, of the
    line logging the error message. *)
Theorem loadUpcomingEarnings_short_circuit (w : World) :
  is_Some (error (primary_response w)) ∨ primary_rows w = [] →
  (loadUpcomingEarnings w).1 = [] ∧
  dependent_lookups (loadUpcomingEarnings w).2 = [] ∧
  (loadUpcomingEarnings w).2 =
    SelectEarnings (todayIso_of w) ::
    match error (primary_response w) with
    | Some err => [ConsoleError "Failed to load earnings calendar" (message err)]
    | None => []
    end.
Proof.
  intros H.
  assert (Hrows : primary_rows w = []).
  { destruct H as [H|H]; [now apply primary_rows_of_failure | exact H]. }
  split; [|split].
  - rewrite load_value, Hrows. reflexivity.
  - rewrite load_trace, Hrows. destruct (error (primary_response w)); reflexivity.
  - rewrite load_trace, Hrows. destruct (error (primary_response w)); reflexivity.
Qed.

Lemma loadUpcomingEarnings_short_circuit_witness :
  (is_Some (error (primary_response world_primary_down)) ∨
   primary_rows world_primary_down = []) ∧
  (loadUpcomingEarnings world_primary_down).1 = [] ∧
  dependent_lookups (loadUpcomingEarnings world_primary_down).2 = [] ∧
  (loadUpcomingEarnings world_primary_down).2 =
    [SelectEarnings "2026-11-02";
     ConsoleError "Failed to load earnings calendar" "connection refused"].
Proof.
  assert (H : is_Some (error (primary_response world_primary_down)) ∨
              primary_rows world_primary_down = []).
  { right. reflexivity. }
  split; [exact H|].
  exact (loadUpcomingEarnings_short_circuit world_primary_down H).
Defined.

(** ** The identifier set *)

Lemma foldl_set_add_elem (xs acc : list string) (x : string) :
  x ∈ foldl Js.set_add acc xs ↔ x ∈ acc ∨ x ∈ xs.
Proof.
  revert acc. induction xs as [|y xs IH]; intros acc; cbn [foldl].
  - rewrite elem_of_nil. tauto.
  - rewrite IH, elem_of_cons. unfold Js.set_add.
    case_bool_decide as Hy.
    + split; [tauto|]. intros [H|[->|H]]; tauto.
    + rewrite elem_of_app, list_elem_of_singleton. tauto.
Qed.

Lemma foldl_set_add_NoDup (xs acc : list string) :
  NoDup acc → NoDup (foldl Js.set_add acc xs).
Proof.
  revert acc. induction xs as [|y xs IH]; intros acc Hacc; cbn [foldl].
  - exact Hacc.
  - apply IH. unfold Js.set_add. case_bool_decide as Hy; [exact Hacc|].
    apply NoDup_app. split; [exact Hacc|]. split.
    + intros z Hz Hin. apply list_elem_of_singleton in Hin. now subst.
    + apply NoDup_singleton.
Qed.

Lemma truthy_nonempty (s : string) : Js.truthy s = true ↔ s ≠ "".
Proof. destruct s; cbn; split; congruence. Qed.

Lemma isins_of_NoDup (rows : list EarningsRow.t) : NoDup (isins_of rows).
Proof. apply foldl_set_add_NoDup, NoDup_nil_2. Qed.

Lemma isins_of_elem (rows : list EarningsRow.t) (s : string) :
  s ∈ isins_of rows ↔ s ≠ "" ∧ ∃ row, row ∈ rows ∧ EarningsRow.isin row = s.
Proof.
  unfold isins_of, Js.array_from_set.
  rewrite foldl_set_add_elem, elem_of_nil, list_elem_of_In, filter_In.
  rewrite <- list_elem_of_In, truthy_nonempty.
  change (map EarningsRow.isin rows) with (EarningsRow.isin <$> rows).
  rewrite list_elem_of_fmap.
  split.
  - intros [[]|[(row & -> & Hrow) Hne]]. split; [exact Hne|]. now exists row.
  - intros (Hne & row & Hrow & <-). right. split; [|exact Hne]. now exists row.
Qed.

(** ** The lookup maps *)

Section Index.

Context {A : Type} (key : A → string).

(** A map filled by successive [set] calls answers, for each key, the last
    row written under it. *)
Lemma index_lookup (rows : list A) (m : gmap string A) (k : string) :
  foldl (λ map r, <[key r := r]> map) m rows !! k =
  match last (filter (λ r, key r = k) rows) with
  | Some r => Some r
  | None => m !! k
  end.
Proof.
  revert m. induction rows as [|r rows IH]; intros m; cbn [foldl].
  - reflexivity.
  - rewrite IH, filter_cons. destruct (decide (key r = k)) as [Hk|Hk].
    + rewrite last_cons.
      destruct (last (filter (λ r0, key r0 = k) rows)); [reflexivity|].
      rewrite Hk. apply lookup_insert_eq.
    + destruct (last (filter (λ r0, key r0 = k) rows)); [reflexivity|].
      now apply lookup_insert_ne.
Qed.

Lemma index_lookup_empty (rows : list A) (k : string) :
  foldl (λ map r, <[key r := r]> map) (∅ : gmap string A) rows !! k =
  last (filter (λ r, key r = k) rows).
Proof.
  rewrite index_lookup.
  destruct (last (filter (λ r, key r = k) rows)); [reflexivity|].
  apply lookup_empty.
Qed.

End Index.

Lemma companies_of_lookup (rows : list CompanyRow.t) (k : string) :
  companies_of rows !! k = last (filter (λ r, CompanyRow.isin r = k) rows).
Proof. apply index_lookup_empty. Qed.

Lemma reports_of_lookup (rows : list ReportRow.t) (k : string) :
  reports_of rows !! k =
  last (filter (λ r, ReportRow.isin r = k)
          (List.filter (λ r, Js.truthy_opt (ReportRow.storage_url r)) rows)).
Proof. apply index_lookup_empty. Qed.

Lemma truthy_opt_Some (v : option string) :
  Js.truthy_opt v = true ↔ ∃ s, v = Some s ∧ s ≠ "".
Proof.
  destruct v as [s|]; cbn.
  - rewrite truthy_nonempty. split; [eauto|]. now intros (s' & [= <-] & H).
  - split; [discriminate|]. now intros (s' & H & _).
Qed.

Lemma reports_of_Some (rows : list ReportRow.t) (k : string) (r : ReportRow.t) :
  reports_of rows !! k = Some r →
  r ∈ rows ∧ ReportRow.isin r = k ∧
  ∃ url, ReportRow.storage_url r = Some url ∧ url ≠ "".
Proof.
  rewrite reports_of_lookup. intros H.
  apply last_Some_elem_of, list_elem_of_filter in H as [Hk H].
  apply list_elem_of_In, filter_In in H as [Hin Hurl].
  split; [now apply list_elem_of_In|]. split; [exact Hk|].
  now apply truthy_opt_Some.
Qed.

Lemma companies_of_Some (rows : list CompanyRow.t) (k : string) (p : CompanyRow.t) :
  companies_of rows !! k = Some p → p ∈ rows ∧ CompanyRow.isin p = k.
Proof.
  rewrite companies_of_lookup. intros H.
  apply last_Some_elem_of, list_elem_of_filter in H as [Hk H]. now split.
Qed.

Lemma last_filter_is_Some {A : Type} (P : A → Prop) `{!∀ x, Decision (P x)}
    (l : list A) :
  is_Some (last (filter P l)) ↔ ∃ x, x ∈ l ∧ P x.
Proof.
  rewrite last_is_Some. split.
  - intros Hne. destruct (filter P l) as [|x l'] eqn:Hf; [now destruct Hne|].
    exists x. apply and_comm, (list_elem_of_filter P). rewrite Hf. apply list_elem_of_here.
  - intros (x & Hx & HP) Hnil.
    assert (Hin : x ∈ filter P l) by now apply list_elem_of_filter.
    rewrite Hnil in Hin. now apply elem_of_nil in Hin.
Qed.

Lemma companies_of_is_Some (rows : list CompanyRow.t) (k : string) :
  is_Some (companies_of rows !! k) ↔ ∃ p, p ∈ rows ∧ CompanyRow.isin p = k.
Proof. rewrite companies_of_lookup. apply last_filter_is_Some. Qed.

Lemma reports_of_is_Some (rows : list ReportRow.t) (k : string) :
  is_Some (reports_of rows !! k) ↔
  ∃ r, r ∈ rows ∧ ReportRow.isin r = k ∧
       ∃ url, ReportRow.storage_url r = Some url ∧ url ≠ "".
Proof.
  rewrite reports_of_lookup, last_filter_is_Some. split.
  - intros (r & Hr & Hk).
    apply list_elem_of_In, filter_In in Hr as [Hin Hurl].
    exists r. split; [now apply list_elem_of_In|]. split; [exact Hk|].
    now apply truthy_opt_Some.
  - intros (r & Hin & Hk & Hurl). exists r. split; [|exact Hk].
    apply list_elem_of_In, filter_In. split; [now apply list_elem_of_In|].
    now apply truthy_opt_Some.
Qed.

Lemma elem_of_load (w : World) (c : CalendarRow.t) :
  c ∈ (loadUpcomingEarnings w).1 ↔
  ∃ row, row ∈ primary_rows w ∧
    c = enrich (companies_of (company_rows w)) (reports_of (report_rows w)) row.
Proof.
  rewrite load_value.
  change (map ?f ?l) with (f <$> l). rewrite list_elem_of_fmap.
  split; intros (row & H1 & H2); exists row; tauto.
Qed.

Lemma dependent_lookups_app (t1 t2 : list Effect) :
  dependent_lookups (t1 ++ t2) = (dependent_lookups t1 ++ dependent_lookups t2)%list.
Proof. apply List.filter_app. Qed.

Lemma dependent_lookups_log {A : Type} (label : string) (result : Response A) :
  dependent_lookups (log_failure label result).2 = [].
Proof. unfold log_failure. destruct (error result); reflexivity. Qed.

Lemma isins_of_nil : isins_of [] = [].
Proof. reflexivity. Qed.

Lemma lookups_without_identifiers (w : World) :
  isins_of (primary_rows w) = [] →
  companies_result w = Success (Some []) ∧ reports_result w = Success (Some []).
Proof.
  unfold companies_result, reports_result, lookup_companies, lookup_reports.
  intros ->. split; reflexivity.
Qed.

(** C4: the identifiers handed to the dependent lookups are the distinct
    non-empty isins of the returned events; when there is none, both
    lookups resolve to an empty row list without a query being issued, and
    every output record carries neither a company nor a report. *)
Theorem dependent_lookups_identifier_set (w : World) :
  NoDup (isins_of (primary_rows w)) ∧
  (∀ s : string,
     s ∈ isins_of (primary_rows w) ↔
     s ≠ "" ∧ ∃ row, row ∈ primary_rows w ∧ EarningsRow.isin row = s) ∧
  (isins_of (primary_rows w) ≠ [] →
   dependent_lookups (loadUpcomingEarnings w).2 =
     [SelectCompany (isins_of (primary_rows w));
      SelectReports 6 (isins_of (primary_rows w))]) ∧
  (isins_of (primary_rows w) = [] →
   companies_result w = Success (Some []) ∧
   reports_result w = Success (Some []) ∧
   dependent_lookups (loadUpcomingEarnings w).2 = [] ∧
   Forall unenriched (loadUpcomingEarnings w).1).
Proof.
  split; [apply isins_of_NoDup|]. split; [apply isins_of_elem|]. split.
  - intros Hne. rewrite load_trace.
    destruct (error (primary_response w)) as [err|] eqn:Herr.
    { rewrite primary_rows_of_failure in Hne by (rewrite Herr; eauto).
      now destruct Hne. }
    destruct (primary_rows w) as [|row rows] eqn:Hrows; [now destruct Hne|].
    change (SelectEarnings ?d :: ?t) with ([SelectEarnings d] ++ t)%list.
    rewrite !dependent_lookups_app, !dependent_lookups_log, !app_nil_r.
    unfold lookup_companies, lookup_reports.
    destruct (isins_of (row :: rows)); [now destruct Hne|]. reflexivity.
  - intros Hnil.
    destruct (lookups_without_identifiers w Hnil) as [Hc Hr].
    split; [exact Hc|]. split; [exact Hr|]. split.
    + rewrite load_trace.
      destruct (error (primary_response w)); [reflexivity|].
      destruct (primary_rows w) as [|row rows] eqn:Hrows; [reflexivity|].
      rewrite Hc, Hr. unfold lookup_companies, lookup_reports.
      rewrite Hnil. reflexivity.
    + apply Forall_forall. intros c Hc'.
      apply elem_of_load in Hc' as (row & _ & ->).
      unfold company_rows, report_rows. rewrite Hc, Hr.
      split; apply lookup_empty.
Qed.

Lemma dependent_lookups_identifier_set_witness :
  (isins_of (primary_rows world_shared_isin) ≠ [] ∧
   dependent_lookups (loadUpcomingEarnings world_shared_isin).2 =
     [SelectCompany [isinA; isinB]; SelectReports 6 [isinA; isinB]]) ∧
  (isins_of (primary_rows world_blank_isin) = [] ∧
   companies_result world_blank_isin = Success (Some []) ∧
   reports_result world_blank_isin = Success (Some []) ∧
   dependent_lookups (loadUpcomingEarnings world_blank_isin).2 = [] ∧
   Forall unenriched (loadUpcomingEarnings world_blank_isin).1).
Proof.
  split.
  - assert (H : isins_of (primary_rows world_shared_isin) ≠ []) by discriminate.
    split; [exact H|].
    exact (proj1 (proj2 (proj2 (dependent_lookups_identifier_set world_shared_isin))) H).
  - assert (H : isins_of (primary_rows world_blank_isin) = []) by reflexivity.
    split; [exact H|].
    exact (proj2 (proj2 (proj2 (dependent_lookups_identifier_set world_blank_isin))) H).
Defined.

(** ** Reports without a storage URL *)

(** C8: the report map holds only rows of the lookup result that have a
    non-empty storage URL, each under its own identifier; hence the report
    of an output record, when there is one, has a non-empty storage URL. *)
Theorem report_without_url_never_attached :
  (∀ (rows : list ReportRow.t) (k : string) (r : ReportRow.t),
     reports_of rows !! k = Some r →
     r ∈ rows ∧ ReportRow.isin r = k ∧
     ∃ url, ReportRow.storage_url r = Some url ∧ url ≠ "") ∧
  (∀ (w : World) (c : CalendarRow.t) (r : ReportRow.t),
     c ∈ (loadUpcomingEarnings w).1 →
     CalendarRow.report c = Some r →
     r ∈ report_rows w ∧
     ∃ url, ReportRow.storage_url r = Some url ∧ url ≠ "").
Proof.
  split.
  - apply reports_of_Some.
  - intros w c r Hc Hr.
    apply elem_of_load in Hc as (row & _ & ->). cbn in Hr.
    apply reports_of_Some in Hr as (Hin & _ & Hurl). now split.
Qed.

Lemma report_without_url_never_attached_witness :
  ((reports_of [reportA; reportA_pending] !! isinA = Some reportA) ∧
   reportA ∈ [reportA; reportA_pending] ∧ ReportRow.isin reportA = isinA ∧
   ∃ url, ReportRow.storage_url reportA = Some url ∧ url ≠ "") ∧
  ∃ c, c ∈ (loadUpcomingEarnings world_shared_isin).1 ∧
       CalendarRow.report c = Some reportA ∧
       reportA ∈ report_rows world_shared_isin ∧
       ∃ url, ReportRow.storage_url reportA = Some url ∧ url ≠ "".
Proof.
  split.
  - assert (H : reports_of [reportA; reportA_pending] !! isinA = Some reportA)
      by reflexivity.
    split; [exact H|].
    exact (proj1 report_without_url_never_attached _ _ _ H).
  - exists (enrich (companies_of (company_rows world_shared_isin))
              (reports_of (report_rows world_shared_isin)) eventA).
    assert (Hin : enrich (companies_of (company_rows world_shared_isin))
                    (reports_of (report_rows world_shared_isin)) eventA
                  ∈ (loadUpcomingEarnings world_shared_isin).1).
    { apply elem_of_load. exists eventA. split; [|reflexivity]. apply list_elem_of_here. }
    assert (Hr : CalendarRow.report
                   (enrich (companies_of (company_rows world_shared_isin))
                      (reports_of (report_rows world_shared_isin)) eventA)
                 = Some reportA) by reflexivity.
    split; [exact Hin|]. split; [exact Hr|].
    exact (proj2 report_without_url_never_attached _ _ _ Hin Hr).
Defined.

(** ** Events and rows sharing an identifier *)

(** It fails where the last report row of an identifier has no storage
    URL and an earlier one has: the earlier row is attached. *)
Lemma last_report_row_not_attached :
  (∃ c : CalendarRow.t,
     c ∈ (loadUpcomingEarnings world_shared_isin).1 ∧
     CalendarRow.isin c = isinA ∧
     CalendarRow.report c = Some reportA ∧
     last (filter (λ r, ReportRow.isin r = CalendarRow.isin c)
             (report_rows world_shared_isin)) = Some reportA_pending) ∧
  ¬ last_report_row_attached world_shared_isin.
Proof.
  assert (Hin : enrich (companies_of (company_rows world_shared_isin))
                  (reports_of (report_rows world_shared_isin)) eventA
                ∈ (loadUpcomingEarnings world_shared_isin).1).
  { apply elem_of_load. exists eventA. split; [|reflexivity]. apply list_elem_of_here. }
  split.
  - eexists. split; [exact Hin|]. repeat split; reflexivity.
  - intros H. specialize (H _ Hin). vm_compute in H. discriminate H.
Qed.

(** C9, amended: every event appears; records with the same identifier
    carry the same company and the same report; the company attached is
    the last row of the company lookup result with the identifier of the
    record, and the report attached is the last row with that identifier
    among the rows of the report lookup result that have a non-empty
    storage URL. *)
Theorem shared_identifier_enrichment (w : World) :
  map CalendarRow.earnings (loadUpcomingEarnings w).1 = primary_rows w ∧
  (∀ c1 c2 : CalendarRow.t,
     c1 ∈ (loadUpcomingEarnings w).1 →
     c2 ∈ (loadUpcomingEarnings w).1 →
     CalendarRow.isin c1 = CalendarRow.isin c2 →
     CalendarRow.company c1 = CalendarRow.company c2 ∧
     CalendarRow.report c1 = CalendarRow.report c2) ∧
  (∀ c : CalendarRow.t,
     c ∈ (loadUpcomingEarnings w).1 →
     CalendarRow.company c =
       last (filter (λ r, CompanyRow.isin r = CalendarRow.isin c) (company_rows w)) ∧
     CalendarRow.report c =
       last (filter (λ r, ReportRow.isin r = CalendarRow.isin c)
               (List.filter (λ r, Js.truthy_opt (ReportRow.storage_url r))
                  (report_rows w)))).
Proof.
  split; [apply map_earnings_load|]. split.
  - intros c1 c2 H1 H2 Hisin.
    apply elem_of_load in H1 as (row1 & _ & ->).
    apply elem_of_load in H2 as (row2 & _ & ->).
    cbn in Hisin |- *. rewrite Hisin. split; reflexivity.
  - intros c Hc. apply elem_of_load in Hc as (row & _ & ->). cbn.
    split; [apply companies_of_lookup | apply reports_of_lookup].
Qed.

Lemma shared_identifier_enrichment_witness :
  ∃ c1 c2 : CalendarRow.t,
    (c1 ∈ (loadUpcomingEarnings world_shared_isin).1 ∧
     c2 ∈ (loadUpcomingEarnings world_shared_isin).1 ∧
     CalendarRow.isin c1 = CalendarRow.isin c2) ∧
    CalendarRow.id c1 = 1%Z ∧ CalendarRow.id c2 = 3%Z ∧
    (CalendarRow.company c1 = CalendarRow.company c2 ∧
     CalendarRow.report c1 = CalendarRow.report c2) ∧
    (CalendarRow.company c1 = Some companyA ∧
     CalendarRow.report c1 = Some reportA).
Proof.
  pose (out := (loadUpcomingEarnings world_shared_isin).1).
  pose (companies := companies_of (company_rows world_shared_isin)).
  pose (reports := reports_of (report_rows world_shared_isin)).
  assert (H1 : enrich companies reports eventA ∈ out).
  { apply elem_of_load. exists eventA. split; [|reflexivity]. apply list_elem_of_here. }
  assert (H3 : enrich companies reports eventA_later ∈ out).
  { apply elem_of_load. exists eventA_later. split; [|reflexivity].
    do 2 apply list_elem_of_further. apply list_elem_of_here. }
  assert (Hisin : CalendarRow.isin (enrich companies reports eventA) =
                  CalendarRow.isin (enrich companies reports eventA_later))
    by reflexivity.
  exists (enrich companies reports eventA), (enrich companies reports eventA_later).
  split; [now repeat split|]. split; [reflexivity|]. split; [reflexivity|].
  split.
  - exact (proj1 (proj2 (shared_identifier_enrichment world_shared_isin))
             _ _ H1 H3 Hisin).
  - pose proof (proj2 (proj2 (shared_identifier_enrichment world_shared_isin))
                  _ H1) as [Hc Hr].
    split; [rewrite Hc | rewrite Hr]; reflexivity.
Defined.

(** ** Failing dependent lookups *)

Lemma primary_of_identifiers (w : World) :
  isins_of (primary_rows w) ≠ [] →
  error (primary_response w) = None ∧ primary_rows w ≠ [].
Proof.
  intros Hne. split.
  - destruct (error (primary_response w)) as [err|] eqn:Herr; [|reflexivity].
    rewrite primary_rows_of_failure in Hne by (rewrite Herr; eauto).
    now destruct Hne.
  - intros Hrows. rewrite Hrows in Hne. now destruct Hne.
Qed.

Lemma load_trace_identifiers (w : World) :
  isins_of (primary_rows w) ≠ [] →
  (loadUpcomingEarnings w).2 =
  ([SelectEarnings (todayIso_of w);
    SelectCompany (isins_of (primary_rows w));
    SelectReports 6 (isins_of (primary_rows w))] ++
   (log_failure "Failed to load company metadata" (companies_result w)).2 ++
   (log_failure "Failed to load report metadata" (reports_result w)).2)%list.
Proof.
  intros Hne. destruct (primary_of_identifiers w Hne) as [Herr Hrows].
  rewrite load_trace, Herr.
  destruct (primary_rows w) as [|row rows] eqn:E; [now destruct Hrows|].
  unfold lookup_companies, lookup_reports.
  destruct (isins_of (row :: rows)); [now destruct Hne|]. reflexivity.
Qed.

Lemma companies_failure_identifiers (w : World) (err : PostgrestError) :
  companies_result w = Failure err → isins_of (primary_rows w) ≠ [].
Proof.
  intros H Hnil. destruct (lookups_without_identifiers w Hnil) as [Hc _].
  rewrite Hc in H. discriminate H.
Qed.

Lemma reports_failure_identifiers (w : World) (err : PostgrestError) :
  reports_result w = Failure err → isins_of (primary_rows w) ≠ [].
Proof.
  intros H Hnil. destruct (lookups_without_identifiers w Hnil) as [_ Hr].
  rewrite Hr in H. discriminate H.
Qed.

Lemma company_rows_without (w : World) : company_rows (without_companies w) = [].
Proof.
  unfold company_rows, companies_result, lookup_companies.
  destruct (0 <? length _)%nat; reflexivity.
Qed.

Lemma report_rows_without (w : World) : report_rows (without_reports w) = [].
Proof.
  unfold report_rows, reports_result, lookup_reports.
  destruct (0 <? length _)%nat; reflexivity.
Qed.

(** C3: [loadUpcomingEarnings] is a total function, so it always returns.
    When the company lookup fails, the failure is logged with its message,
    the result is the one the run would have with a company lookup
    answering no rows, every event is in the output at its position, and
    every record lacks a company while its report is still attached from
    the report lookup result: it is the last row with the identifier of
    the record among the rows with a non-empty storage URL, so a record
    carries a report exactly when such a row exists for its identifier.
    Likewise when the report lookup fails: every record lacks a report
    and carries the last row of the company lookup result with its
    identifier, hence a company exactly when such a row exists. *)
Theorem dependent_failure_degrades (w : World) :
  (∀ err : PostgrestError,
     companies_result w = Failure err →
     ConsoleError "Failed to load company metadata" (message err)
       ∈ (loadUpcomingEarnings w).2 ∧
     (loadUpcomingEarnings w).1 = (loadUpcomingEarnings (without_companies w)).1 ∧
     map CalendarRow.earnings (loadUpcomingEarnings w).1 = primary_rows w ∧
     Forall (λ c, CalendarRow.company c = None ∧
                  CalendarRow.report c =
                    last (filter (λ r, ReportRow.isin r = CalendarRow.isin c)
                            (List.filter
                               (λ r, Js.truthy_opt (ReportRow.storage_url r))
                               (report_rows w))) ∧
                  (is_Some (CalendarRow.report c) ↔
                   ∃ r, r ∈ report_rows w ∧
                        ReportRow.isin r = CalendarRow.isin c ∧
                        ∃ url, ReportRow.storage_url r = Some url ∧ url ≠ "") ∧
                  ∀ r, CalendarRow.report c = Some r →
                       r ∈ report_rows w ∧
                       ReportRow.isin r = CalendarRow.isin c)
       (loadUpcomingEarnings w).1) ∧
  (∀ err : PostgrestError,
     reports_result w = Failure err →
     ConsoleError "Failed to load report metadata" (message err)
       ∈ (loadUpcomingEarnings w).2 ∧
     (loadUpcomingEarnings w).1 = (loadUpcomingEarnings (without_reports w)).1 ∧
     map CalendarRow.earnings (loadUpcomingEarnings w).1 = primary_rows w ∧
     Forall (λ c, CalendarRow.report c = None ∧
                  CalendarRow.company c =
                    last (filter (λ p, CompanyRow.isin p = CalendarRow.isin c)
                            (company_rows w)) ∧
                  (is_Some (CalendarRow.company c) ↔
                   ∃ p, p ∈ company_rows w ∧
                        CompanyRow.isin p = CalendarRow.isin c) ∧
                  ∀ p, CalendarRow.company c = Some p →
                       p ∈ company_rows w ∧
                       CompanyRow.isin p = CalendarRow.isin c)
       (loadUpcomingEarnings w).1).
Proof.
  split; intros err Hfail.
  - assert (Hrows : company_rows w = []).
    { unfold company_rows. rewrite Hfail. reflexivity. }
    split; [|split; [|split]].
    + rewrite load_trace_identifiers
        by exact (companies_failure_identifiers w err Hfail).
      rewrite Hfail. cbn [log_failure error console_error snd].
      rewrite !elem_of_app, !elem_of_cons. tauto.
    + rewrite !load_value, Hrows, company_rows_without. reflexivity.
    + apply map_earnings_load.
    + apply Forall_forall. intros c Hc.
      apply elem_of_load in Hc as (row & _ & ->). rewrite Hrows.
      cbn [CalendarRow.company CalendarRow.report CalendarRow.isin enrich].
      split; [apply lookup_empty|]. split; [apply reports_of_lookup|].
      split; [apply reports_of_is_Some|].
      intros r Hr. apply reports_of_Some in Hr as (Hin & Hk & _). now split.
  - assert (Hrows : report_rows w = []).
    { unfold report_rows. rewrite Hfail. reflexivity. }
    split; [|split; [|split]].
    + rewrite load_trace_identifiers
        by exact (reports_failure_identifiers w err Hfail).
      rewrite Hfail. cbn [log_failure error console_error snd].
      rewrite !elem_of_app, !elem_of_cons. tauto.
    + rewrite !load_value, Hrows, report_rows_without. reflexivity.
    + apply map_earnings_load.
    + apply Forall_forall. intros c Hc.
      apply elem_of_load in Hc as (row & _ & ->). rewrite Hrows.
      cbn [CalendarRow.company CalendarRow.report CalendarRow.isin enrich].
      split; [apply lookup_empty|]. split; [apply companies_of_lookup|].
      split; [apply companies_of_is_Some|].
      intros p Hp. now apply companies_of_Some in Hp.
Qed.

(** The scenario of the specification: the events A and B, the company
    lookup errors, the report lookup matches only A.  Both records are in
    the output without a company, and only the record of A carries a
    report.  The mirror scenario has the report lookup erroring and the
    company lookup matching only A. *)
Lemma dependent_failure_degrades_witness :
  (companies_result world_company_down = Failure {| message := "permission denied" |} ∧
   ConsoleError "Failed to load company metadata" "permission denied"
     ∈ (loadUpcomingEarnings world_company_down).2 ∧
   map CalendarRow.earnings (loadUpcomingEarnings world_company_down).1 =
     [eventA; eventB] ∧
   map CalendarRow.company (loadUpcomingEarnings world_company_down).1 =
     [None; None] ∧
   map CalendarRow.report (loadUpcomingEarnings world_company_down).1 =
     [Some reportA; None]) ∧
  (reports_result world_reports_down = Failure {| message := "timeout" |} ∧
   ConsoleError "Failed to load report metadata" "timeout"
     ∈ (loadUpcomingEarnings world_reports_down).2 ∧
   map CalendarRow.earnings (loadUpcomingEarnings world_reports_down).1 =
     [eventA; eventB] ∧
   map CalendarRow.report (loadUpcomingEarnings world_reports_down).1 =
     [None; None] ∧
   map CalendarRow.company (loadUpcomingEarnings world_reports_down).1 =
     [Some companyA; None]).
Proof.
  split.
  - assert (H : companies_result world_company_down =
                Failure {| message := "permission denied" |}) by reflexivity.
    destruct (proj1 (dependent_failure_degrades world_company_down) _ H)
      as (Hlog & _ & Hmap & Hall).
    split; [exact H|]. split; [exact Hlog|]. split; [exact Hmap|].
    change (primary_rows world_company_down) with [eventA; eventB] in Hmap.
    revert Hmap Hall.
    generalize (loadUpcomingEarnings world_company_down).1.
    intros [|c1 [|c2 [|c3 out]]] Hmap Hall; try discriminate Hmap.
    apply (f_equal (map EarningsRow.isin)) in Hmap. cbn in Hmap.
    injection Hmap as H1 H2.
    apply Forall_cons in Hall as [(Hc1 & Hr1 & _) Hall].
    apply Forall_cons in Hall as [(Hc2 & Hr2 & _) _].
    rewrite H1 in Hr1. rewrite H2 in Hr2.
    cbn [map]. rewrite Hc1, Hc2, Hr1, Hr2. split; reflexivity.
  - assert (H : reports_result world_reports_down =
                Failure {| message := "timeout" |}) by reflexivity.
    destruct (proj2 (dependent_failure_degrades world_reports_down) _ H)
      as (Hlog & _ & Hmap & Hall).
    split; [exact H|]. split; [exact Hlog|]. split; [exact Hmap|].
    change (primary_rows world_reports_down) with [eventA; eventB] in Hmap.
    revert Hmap Hall.
    generalize (loadUpcomingEarnings world_reports_down).1.
    intros [|c1 [|c2 [|c3 out]]] Hmap Hall; try discriminate Hmap.
    apply (f_equal (map EarningsRow.isin)) in Hmap. cbn in Hmap.
    injection Hmap as H1 H2.
    apply Forall_cons in Hall as [(Hr1 & Hc1 & _) Hall].
    apply Forall_cons in Hall as [(Hr2 & Hc2 & _) _].
    rewrite H1 in Hc1. rewrite H2 in Hc2.
    cbn [map]. rewrite Hc1, Hc2, Hr1, Hr2. split; reflexivity.
Defined.

(** The scenario of the specification, run: two events A and B, the company
    lookup errors, the report lookup matches only A. *)
Example company_lookup_errors_scenario :
  loadUpcomingEarnings world_company_down =
  ([ CalendarRow.mk 1 isinA "2026-11-03" (Some "nasdaq") "2026-10-01T08:00:00Z"
       None (Some reportA);
     CalendarRow.mk 2 isinB "2026-11-04" None "2026-10-01T08:00:00Z"
       None None ],
   [ SelectEarnings "2026-11-02";
     SelectCompany [isinA; isinB];
     SelectReports 6 [isinA; isinB];
     ConsoleError "Failed to load company metadata" "permission denied" ]).
Proof. reflexivity. Qed.

(** ** Display helpers *)

(** C5: [formatCompany] is the friendly name of the profile when there is
    a non-empty one, whatever the formal name; failing that, the formal
    name when there is a non-empty one; failing both (or without a
    profile), the bare identifier. *)
Theorem formatCompany_preference (row : CalendarRow.t) :
  (∀ (c : CompanyRow.t) (friendly : string),
     CalendarRow.company row = Some c →
     CompanyRow.friendly_name c = Some friendly → friendly ≠ "" →
     formatCompany row = friendly) ∧
  (∀ (c : CompanyRow.t) (formal : string),
     CalendarRow.company row = Some c →
     Js.truthy_opt (CompanyRow.friendly_name c) = false →
     CompanyRow.name c = Some formal → formal ≠ "" →
     formatCompany row = formal) ∧
  ((∀ c : CompanyRow.t,
      CalendarRow.company row = Some c →
      Js.truthy_opt (CompanyRow.friendly_name c) = false ∧
      Js.truthy_opt (CompanyRow.name c) = false) →
   formatCompany row = CalendarRow.isin row).
Proof.
  unfold formatCompany. split; [|split].
  - intros c friendly -> Hf Hne. cbn. rewrite Hf.
    destruct friendly; [now destruct Hne|]. reflexivity.
  - intros c formal -> Hf Hn Hne. cbn. unfold Js.or_opt. rewrite Hf, Hn.
    destruct formal; [now destruct Hne|]. reflexivity.
  - intros H. destruct (CalendarRow.company row) as [c|]; [|reflexivity].
    destruct (H c eq_refl) as [Hf Hn]. cbn. unfold Js.or_opt. rewrite Hf.
    destruct (CompanyRow.name c) as [n|]; [|reflexivity].
    cbn in Hn |- *. rewrite Hn. reflexivity.
Qed.

Lemma formatCompany_preference_witness :
  formatCompany recordA = "Apple" ∧
  formatCompany recordA_stale = "Apple Computer" ∧
  formatCompany recordB_bare = isinB.
Proof.
  split; [|split].
  - apply (proj1 (formatCompany_preference recordA) companyA "Apple");
      [reflexivity | reflexivity | discriminate].
  - apply (proj1 (proj2 (formatCompany_preference recordA_stale))
             companyA_stale "Apple Computer");
      [reflexivity | reflexivity | reflexivity | discriminate].
  - apply (proj2 (proj2 (formatCompany_preference recordB_bare))).
    intros c Hc. discriminate Hc.
Defined.

(** *** [trim] runs to the end

    The fuel given to [strip_all] is enough: what [trimStart] returns
    starts with no white space, and the reversed bytes left by [trimEnd]
    start with none either. *)

Lemma strip_prefix_length (p s rest : string) :
  Js.strip_prefix p s = Some rest →
  String.length s = (String.length p + String.length rest)%nat.
Proof.
  revert s. induction p as [|a p IH]; intros s H; cbn in H.
  - now injection H as ->.
  - destruct s as [|b s]; [discriminate H|].
    destruct (Ascii.eqb a b); [|discriminate H].
    cbn. f_equal. now apply IH.
Qed.

Lemma strip_one_shorter (seqs : list string) (s rest : string) :
  Forall (λ p, p ≠ "") seqs →
  Js.strip_one seqs s = Some rest →
  (String.length rest < String.length s)%nat.
Proof.
  induction 1 as [|p seqs Hp _ IH]; cbn; [discriminate|].
  destruct (Js.strip_prefix p s) as [rest'|] eqn:Hpre; [|exact IH].
  intros [= <-]. apply strip_prefix_length in Hpre.
  destruct p; [now destruct Hp|]. cbn in Hpre. lia.
Qed.

Lemma strip_all_done (seqs : list string) (fuel : nat) (s : string) :
  Forall (λ p, p ≠ "") seqs →
  (String.length s ≤ fuel)%nat →
  Js.strip_one seqs (Js.strip_all fuel seqs s) = None.
Proof.
  intros Hseqs. revert s. induction fuel as [|fuel IH]; intros s Hlen; cbn.
  - destruct (Js.strip_one seqs s) as [rest|] eqn:Hone; [|reflexivity].
    apply strip_one_shorter in Hone; [lia | exact Hseqs].
  - destruct (Js.strip_one seqs s) as [rest|] eqn:Hone; [|exact Hone].
    apply IH. apply strip_one_shorter in Hone; [lia | exact Hseqs].
Qed.

Lemma rev_app_length (s acc : string) :
  String.length (String.rev_app s acc) = (String.length s + String.length acc)%nat.
Proof.
  revert acc. induction s as [|a s IH]; intros acc; cbn; [reflexivity|].
  rewrite IH. cbn. lia.
Qed.

Lemma trimStart_done (s : string) :
  Js.strip_one (map Js.utf8 Js.white_space) (Js.trimStart s) = None.
Proof.
  apply strip_all_done; [|reflexivity].
  cbv [map Js.white_space]. repeat (constructor; [discriminate|]). constructor.
Qed.

Lemma trimEnd_done (s : string) :
  ∃ kept : string,
    Js.trimEnd s = String.rev kept ∧
    Js.strip_one (map (λ bs, Js.utf8 (reverse bs)) Js.white_space) kept = None.
Proof.
  eexists. split; [reflexivity|].
  apply strip_all_done.
  - cbv [map Js.white_space]. repeat (constructor; [discriminate|]). constructor.
  - unfold String.rev. rewrite rev_app_length. cbn. lia.
Qed.

Lemma nonempty_part_present (v : option string) :
  List.filter nonempty_part [v] = Some <$> present v.
Proof. destruct v as [[|a s]|]; reflexivity. Qed.

Lemma join_Some (sep : string) (parts : list string) :
  Js.join sep (Some <$> parts) = String.concat sep parts.
Proof.
  induction parts as [|p [|q parts] IH]; [reflexivity | reflexivity |].
  change (Js.join sep (Some <$> p :: q :: parts))
    with (p ++ sep ++ Js.join sep (Some <$> q :: parts)).
  rewrite IH. reflexivity.
Qed.

Lemma formatTicker_concat (row : CalendarRow.t) :
  formatTicker row =
  String.concat " • "
    (present (Js.trim <$> (CalendarRow.company row ≫= CompanyRow.ticker)) ++
     present (Some (CalendarRow.isin row)) ++
     present (CalendarRow.company row ≫= CompanyRow.country)).
Proof.
  unfold formatTicker. rewrite <- join_Some, !fmap_app.
  rewrite <- !nonempty_part_present, <- !List.filter_app. reflexivity.
Qed.

Lemma concat_empty (sep : string) (parts : list string) :
  Forall (λ p, p ≠ "") parts → String.concat sep parts = "" → parts = [].
Proof.
  intros Hparts. destruct Hparts as [|p parts Hp Hparts]; [reflexivity|].
  destruct p as [|a p]; [now destruct Hp|].
  destruct parts; discriminate.
Qed.

Lemma present_nonempty (v : option string) : Forall (λ p, p ≠ "") (present v).
Proof. destruct v as [[|a s]|]; repeat constructor. discriminate. Qed.

(** The joined string is empty only when the identifier itself is. *)
Lemma formatTicker_empty (row : CalendarRow.t) :
  formatTicker row = "" → CalendarRow.isin row = "".
Proof.
  rewrite formatTicker_concat. intros H.
  apply concat_empty in H.
  - apply app_eq_nil in H as [_ H]. apply app_eq_nil in H as [H _].
    destruct (CalendarRow.isin row); [reflexivity | discriminate H].
  - rewrite !Forall_app. repeat split; apply present_nonempty.
Qed.

(** C6: [formatTicker] joins with the separator the values that are
    present and non-empty among the trimmed ticker, the identifier and the
    country, in that order; the ticker line of a table row is that string,
    or the bare identifier when the string is empty. *)
Theorem tickerLine_joins_present_parts (row : CalendarRow.t) :
  formatTicker row =
    String.concat " • "
      (present (Js.trim <$> (CalendarRow.company row ≫= CompanyRow.ticker)) ++
       present (Some (CalendarRow.isin row)) ++
       present (CalendarRow.company row ≫= CompanyRow.country)) ∧
  tickerLine row =
    (if String.eqb (formatTicker row) "" then CalendarRow.isin row
     else formatTicker row) ∧
  tickerLine row =
    ticker_line_spec (CalendarRow.company row ≫= CompanyRow.ticker)
      (CalendarRow.isin row) (CalendarRow.company row ≫= CompanyRow.country).
Proof.
  assert (Hline : tickerLine row =
                  if String.eqb (formatTicker row) "" then CalendarRow.isin row
                  else formatTicker row).
  { unfold tickerLine, Js.or_else. destruct (formatTicker row); reflexivity. }
  split; [apply formatTicker_concat|]. split; [exact Hline|].
  rewrite Hline. unfold ticker_line_spec. rewrite <- formatTicker_concat.
  reflexivity.
Qed.

Example tickerLine_examples :
  tickerLine recordA = "AAPL • US0378331005 • US" ∧
  tickerLine recordA_stale = "US0378331005" ∧
  tickerLine recordB_bare = "US5949181045".
Proof. repeat split; reflexivity. Qed.

(** C7: [formatMarketCap] is the dash for an absent value and for NaN;
    for any other number it is the platform's en-US formatting, as USD
    currency in compact notation with at most one fraction digit, of the
    value times one million, so 1500.0 is formatted as 1.5e9 dollars; a
    formatter that never prints the bare dash makes the dash appear for
    absent and NaN values only. *)
Theorem formatMarketCap_placeholder_or_compact
    (NumberFormat : string → NumberFormatOptions → float → string) :
  formatMarketCap NumberFormat None = dash ∧
  (∀ x : float,
     PrimFloat.is_nan x = true → formatMarketCap NumberFormat (Some x) = dash) ∧
  (∀ x : float,
     PrimFloat.is_nan x = false →
     formatMarketCap NumberFormat (Some x) =
     NumberFormat "en-US" usd_compact (x * 1000000)%float) ∧
  formatMarketCap NumberFormat (Some 1500%float) =
    NumberFormat "en-US" usd_compact 1500000000%float ∧
  ((∀ x : float, NumberFormat "en-US" usd_compact x ≠ dash) →
   ∀ v : option float,
     formatMarketCap NumberFormat v = dash ↔
     v = None ∨ ∃ x, v = Some x ∧ PrimFloat.is_nan x = true).
Proof.
  split; [reflexivity|]. split; [|split; [|split]].
  - intros x Hx. cbn. rewrite Hx. reflexivity.
  - intros x Hx. cbn. rewrite Hx. reflexivity.
  - reflexivity.
  - intros Hfmt [x|]; cbn.
    + destruct (PrimFloat.is_nan x) eqn:Hx.
      * split; [|reflexivity]. intros _. right. now exists x.
      * split.
        -- intros H. now apply Hfmt in H.
        -- intros [H|(y & [= <-] & Hy)]; [discriminate H | congruence].
    + split; [|reflexivity]. intros _. now left.
Qed.

Lemma formatMarketCap_placeholder_or_compact_witness :
  formatMarketCap sample_format (Some nan) = dash ∧
  formatMarketCap sample_format (Some 1500%float) = "$1.5B" ∧
  formatMarketCap sample_format (Some 3400000%float) =
    sample_format "en-US" usd_compact 3400000000000%float ∧
  (formatMarketCap sample_format None = dash ↔
   @None float = None ∨ ∃ x, @None float = Some x ∧ PrimFloat.is_nan x = true).
Proof.
  pose proof (formatMarketCap_placeholder_or_compact sample_format)
    as (_ & Hnan & Hnum & H1500 & Hiff).
  split; [apply Hnan; reflexivity|].
  split; [rewrite H1500; reflexivity|].
  split; [rewrite Hnum by reflexivity; reflexivity|].
  apply Hiff. intros x. unfold sample_format.
  destruct (x =? 1500000000)%float; discriminate.
Defined.

(** * Further properties of the aggregator *)

Lemma load_trace_no_identifiers (w : World) :
  isins_of (primary_rows w) = [] →
  (loadUpcomingEarnings w).2 =
  SelectEarnings (todayIso_of w) ::
  match error (primary_response w) with
  | Some err => [ConsoleError "Failed to load earnings calendar" (message err)]
  | None => []
  end.
Proof.
  intros Hnil. destruct (lookups_without_identifiers w Hnil) as [Hc Hr].
  rewrite load_trace.
  destruct (error (primary_response w)); [reflexivity|].
  destruct (primary_rows w) as [|row rows] eqn:Hrows; [reflexivity|].
  rewrite Hc, Hr. unfold lookup_companies, lookup_reports.
  rewrite Hnil. reflexivity.
Qed.

Lemma log_failure_length {A : Type} (label : string) (result : Response A) :
  (length (log_failure label result).2 ≤ 1)%nat.
Proof. unfold log_failure. destruct (error result); cbn; lia. Qed.

Lemma log_failure_no_query {A : Type} (label : string) (result : Response A) :
  Forall (λ e, ∀ d, e ≠ SelectEarnings d) (log_failure label result).2.
Proof.
  unfold log_failure. destruct (error result); repeat constructor. discriminate.
Qed.

(** X1: a run sends the primary query first and exactly once, for the first
    ten characters of the clock; after it come either no dependent lookup
    or the company lookup followed by the report lookup of type 6, both for
    the same identifiers; a run has at most five effects. *)
Theorem loader_query_plan (w : World) :
  ∃ rest : list Effect,
    (loadUpcomingEarnings w).2 =
      SelectEarnings (String.substring 0 10 (clock w)) :: rest ∧
    Forall (λ e, ∀ d, e ≠ SelectEarnings d) rest ∧
    (dependent_lookups rest = [] ∨
     dependent_lookups rest =
       [SelectCompany (isins_of (primary_rows w));
        SelectReports 6 (isins_of (primary_rows w))]) ∧
    (length (loadUpcomingEarnings w).2 ≤ 5)%nat.
Proof.
  destruct (decide (isins_of (primary_rows w) = [])) as [Hnil|Hne].
  - rewrite (load_trace_no_identifiers w Hnil).
    eexists. split; [reflexivity|].
    destruct (error (primary_response w)); cbn.
    + split; [repeat constructor; discriminate|]. split; [now left | lia].
    + split; [constructor|]. split; [now left | lia].
  - rewrite (load_trace_identifiers w Hne).
    eexists. split; [reflexivity|]. split; [|split].
    + repeat (constructor; [discriminate|]).
      apply Forall_app. split; apply log_failure_no_query.
    + right.
      change (SelectCompany ?i :: SelectReports ?t ?j :: ?l)
        with ([SelectCompany i; SelectReports t j] ++ l)%list.
      rewrite !dependent_lookups_app, !dependent_lookups_log. reflexivity.
    + cbn [length app]. rewrite length_app.
      pose proof (log_failure_length "Failed to load company metadata"
                    (companies_result w)).
      pose proof (log_failure_length "Failed to load report metadata"
                    (reports_result w)).
      lia.
Qed.

Lemma elem_of_log_failure {A : Type} (label : string) (result : Response A)
    (l m : string) :
  ConsoleError l m ∈ (log_failure label result).2 ↔
  l = label ∧ ∃ err, result = Failure err ∧ m = message err.
Proof.
  unfold log_failure. destruct result as [rows|err]; cbn.
  - rewrite elem_of_nil. split; [tauto|]. intros (_ & err & H & _). discriminate H.
  - rewrite list_elem_of_singleton. split.
    + intros [= -> ->]. split; [reflexivity|]. now exists err.
    + intros (-> & err' & [= <-] & ->). reflexivity.
Qed.

(** X2: a line is logged exactly for each query that failed: the primary
    query, the company lookup, the report lookup, each under its own label
    and with the message of its error; a run whose queries all succeed
    logs nothing. *)
Theorem loader_logs_exactly_failures (w : World) (label msg : string) :
  ConsoleError label msg ∈ (loadUpcomingEarnings w).2 ↔
  (label = "Failed to load earnings calendar" ∧
   ∃ err, primary_response w = Failure err ∧ msg = message err) ∨
  (label = "Failed to load company metadata" ∧
   ∃ err, companies_result w = Failure err ∧ msg = message err) ∨
  (label = "Failed to load report metadata" ∧
   ∃ err, reports_result w = Failure err ∧ msg = message err).
Proof.
  destruct (decide (isins_of (primary_rows w) = [])) as [Hnil|Hne].
  - destruct (lookups_without_identifiers w Hnil) as [Hc Hr].
    rewrite (load_trace_no_identifiers w Hnil), Hc, Hr.
    destruct (primary_response w) as [rows|err]; cbn.
    + rewrite list_elem_of_singleton. split; [discriminate|].
      intros [(_ & e & H & _)|[(_ & e & H & _)|(_ & e & H & _)]]; discriminate H.
    + rewrite elem_of_cons, list_elem_of_singleton. split.
      * intros [H|H]; [discriminate H|]. injection H as -> ->.
        left. split; [reflexivity|]. now exists err.
      * intros [(-> & e & [= <-] & ->)|[(_ & e & H & _)|(_ & e & H & _)]];
          [now right | discriminate H | discriminate H].
  - destruct (primary_of_identifiers w Hne) as [Herr _].
    rewrite (load_trace_identifiers w Hne), !elem_of_app, !elem_of_log_failure.
    split.
    + intros [H|[H|H]]; [|now right; left | now right; right].
      repeat (apply elem_of_cons in H as [H|H]; [discriminate H|]).
      now apply elem_of_nil in H.
    + intros [(_ & e & H & _)|[H|H]]; [|now right; left | now right; right].
      rewrite H in Herr. discriminate Herr.
Qed.

(** ** The join, both ways *)

(** X3: whatever is attached to a record is a row of the matching lookup
    result and carries the identifier of the record. *)
Theorem attached_rows_match_identifier (w : World) (c : CalendarRow.t) :
  c ∈ (loadUpcomingEarnings w).1 →
  (∀ p : CompanyRow.t,
     CalendarRow.company c = Some p →
     p ∈ company_rows w ∧ CompanyRow.isin p = CalendarRow.isin c) ∧
  (∀ r : ReportRow.t,
     CalendarRow.report c = Some r →
     r ∈ report_rows w ∧ ReportRow.isin r = CalendarRow.isin c).
Proof.
  intros Hc. apply elem_of_load in Hc as (row & _ & ->). cbn. split.
  - intros p Hp. now apply companies_of_Some in Hp.
  - intros r Hr. apply reports_of_Some in Hr as (Hin & Hk & _). now split.
Qed.

Lemma attached_rows_match_identifier_witness :
  ∃ c : CalendarRow.t,
    c ∈ (loadUpcomingEarnings world_healthy).1 ∧
    CalendarRow.company c = Some companyA ∧
    CalendarRow.report c = Some reportA ∧
    (companyA ∈ company_rows world_healthy ∧
     CompanyRow.isin companyA = CalendarRow.isin c) ∧
    (reportA ∈ report_rows world_healthy ∧
     ReportRow.isin reportA = CalendarRow.isin c).
Proof.
  pose (c := enrich (companies_of (company_rows world_healthy))
               (reports_of (report_rows world_healthy)) eventA).
  assert (Hin : c ∈ (loadUpcomingEarnings world_healthy).1).
  { apply elem_of_load. exists eventA. split; [|reflexivity].
    apply list_elem_of_further, list_elem_of_here. }
  assert (Hp : CalendarRow.company c = Some companyA) by reflexivity.
  assert (Hr : CalendarRow.report c = Some reportA) by reflexivity.
  exists c. split; [exact Hin|]. split; [exact Hp|]. split; [exact Hr|].
  destruct (attached_rows_match_identifier world_healthy c Hin) as [H1 H2].
  split; [exact (H1 _ Hp) | exact (H2 _ Hr)].
Defined.

(** X4: a record gets a company exactly when the company lookup result has
    a row with its identifier, and a report exactly when the report lookup
    result has a row with its identifier and a non-empty storage URL: the
    join misses no match. *)
Theorem matching_rows_are_attached (w : World) (c : CalendarRow.t) :
  c ∈ (loadUpcomingEarnings w).1 →
  (is_Some (CalendarRow.company c) ↔
   ∃ p, p ∈ company_rows w ∧ CompanyRow.isin p = CalendarRow.isin c) ∧
  (is_Some (CalendarRow.report c) ↔
   ∃ r, r ∈ report_rows w ∧ ReportRow.isin r = CalendarRow.isin c ∧
        ∃ url, ReportRow.storage_url r = Some url ∧ url ≠ "").
Proof.
  intros Hc. apply elem_of_load in Hc as (row & _ & ->). cbn. split.
  - rewrite companies_of_lookup. apply last_filter_is_Some.
  - rewrite reports_of_lookup, last_filter_is_Some. split.
    + intros (r & Hr & Hk).
      apply list_elem_of_In, filter_In in Hr as [Hin Hurl].
      exists r. split; [now apply list_elem_of_In|]. split; [exact Hk|].
      now apply truthy_opt_Some.
    + intros (r & Hin & Hk & Hurl). exists r. split; [|exact Hk].
      apply list_elem_of_In, filter_In. split; [now apply list_elem_of_In|].
      now apply truthy_opt_Some.
Qed.

Lemma matching_rows_are_attached_witness :
  ∃ c : CalendarRow.t,
    c ∈ (loadUpcomingEarnings world_healthy).1 ∧
    CalendarRow.isin c = isinB ∧
    (is_Some (CalendarRow.company c) ↔
     ∃ p, p ∈ company_rows world_healthy ∧ CompanyRow.isin p = CalendarRow.isin c) ∧
    (is_Some (CalendarRow.report c) ↔
     ∃ r, r ∈ report_rows world_healthy ∧ ReportRow.isin r = CalendarRow.isin c ∧
          ∃ url, ReportRow.storage_url r = Some url ∧ url ≠ "") ∧
    CalendarRow.company c = Some companyB ∧ CalendarRow.report c = None.
Proof.
  pose (c := enrich (companies_of (company_rows world_healthy))
               (reports_of (report_rows world_healthy)) eventB).
  assert (Hin : c ∈ (loadUpcomingEarnings world_healthy).1).
  { apply elem_of_load. exists eventB. split; [|reflexivity].
    do 2 apply list_elem_of_further. apply list_elem_of_here. }
  exists c. split; [exact Hin|]. split; [reflexivity|].
  destruct (matching_rows_are_attached world_healthy c Hin) as [H1 H2].
  split; [exact H1|]. split; [exact H2|]. split; reflexivity.
Defined.

Lemma primary_rows_ext (w1 w2 : World) :
  clock w1 = clock w2 →
  (∀ d, earnings_calendar w1 d = earnings_calendar w2 d) →
  primary_rows w1 = primary_rows w2.
Proof.
  intros Hclock Hq. unfold primary_rows, primary_response, todayIso_of.
  rewrite Hclock, Hq. reflexivity.
Qed.

(** X5: the two enrichments do not interfere.  Two environments that agree
    on the clock, on the primary query and on the company table give the
    same company to the record at each position, whatever their report
    tables answer; likewise for the reports. *)
Theorem enrichment_dimensions_independent (w1 w2 : World) :
  clock w1 = clock w2 →
  (∀ d, earnings_calendar w1 d = earnings_calendar w2 d) →
  ((∀ isins, company w1 isins = company w2 isins) →
   map CalendarRow.company (loadUpcomingEarnings w1).1 =
   map CalendarRow.company (loadUpcomingEarnings w2).1) ∧
  ((∀ t isins, reports w1 t isins = reports w2 t isins) →
   map CalendarRow.report (loadUpcomingEarnings w1).1 =
   map CalendarRow.report (loadUpcomingEarnings w2).1).
Proof.
  intros Hclock Hq. pose proof (primary_rows_ext w1 w2 Hclock Hq) as Hrows.
  split; intros Hsame; rewrite !load_value, !map_map, Hrows; cbn.
  - replace (company_rows w1) with (company_rows w2); [reflexivity|].
    unfold company_rows, companies_result, lookup_companies, select_company.
    rewrite Hrows, Hsame. reflexivity.
  - replace (report_rows w1) with (report_rows w2); [reflexivity|].
    unfold report_rows, reports_result, lookup_reports, select_reports.
    rewrite Hrows, Hsame. reflexivity.
Qed.

Lemma enrichment_dimensions_independent_witness :
  map CalendarRow.report (loadUpcomingEarnings world_company_down).1 =
  map CalendarRow.report
    (loadUpcomingEarnings (without_companies world_company_down)).1 ∧
  map CalendarRow.company (loadUpcomingEarnings world_reports_down).1 =
  map CalendarRow.company
    (loadUpcomingEarnings (without_reports world_reports_down)).1.
Proof.
  split.
  - apply (proj2 (enrichment_dimensions_independent world_company_down
                    (without_companies world_company_down)
                    eq_refl (λ _, eq_refl))).
    intros t isins. reflexivity.
  - apply (proj1 (enrichment_dimensions_independent world_reports_down
                    (without_reports world_reports_down)
                    eq_refl (λ _, eq_refl))).
    intros isins. reflexivity.
Defined.

(** X6: when each lookup answers only rows for the identifiers it was
    asked about, a record with an empty identifier is never enriched: the
    empty identifier is never asked about. *)
Theorem blank_identifier_unenriched (w : World) (c : CalendarRow.t) :
  (∀ p, p ∈ company_rows w → CompanyRow.isin p ∈ isins_of (primary_rows w)) →
  (∀ r, r ∈ report_rows w → ReportRow.isin r ∈ isins_of (primary_rows w)) →
  c ∈ (loadUpcomingEarnings w).1 →
  CalendarRow.isin c = "" →
  unenriched c.
Proof.
  intros Hcompany Hreport Hc Hblank.
  apply elem_of_load in Hc as (row & _ & ->). cbn in Hblank. split; cbn.
  - destruct (companies_of (company_rows w) !! EarningsRow.isin row)
      as [p|] eqn:Hp; [|reflexivity].
    apply companies_of_Some in Hp as [Hin Hk].
    apply Hcompany, isins_of_elem in Hin as [Hne _].
    rewrite Hk, Hblank in Hne. now destruct Hne.
  - destruct (reports_of (report_rows w) !! EarningsRow.isin row)
      as [r|] eqn:Hr; [|reflexivity].
    apply reports_of_Some in Hr as (Hin & Hk & _).
    apply Hreport, isins_of_elem in Hin as [Hne _].
    rewrite Hk, Hblank in Hne. now destruct Hne.
Qed.

Lemma blank_identifier_unenriched_witness :
  ∃ c : CalendarRow.t,
    c ∈ (loadUpcomingEarnings world_mixed).1 ∧
    CalendarRow.id c = 4%Z ∧ CalendarRow.isin c = "" ∧ unenriched c.
Proof.
  pose (c := enrich (companies_of (company_rows world_mixed))
               (reports_of (report_rows world_mixed)) event_blank).
  assert (Hin : c ∈ (loadUpcomingEarnings world_mixed).1).
  { apply elem_of_load. exists event_blank. split; [|reflexivity].
    apply list_elem_of_here. }
  exists c. split; [exact Hin|]. split; [reflexivity|]. split; [reflexivity|].
  apply (blank_identifier_unenriched world_mixed c); [| |exact Hin|reflexivity].
  - intros p Hp. change (p ∈ [companyA]) in Hp.
    apply list_elem_of_singleton in Hp as ->. apply list_elem_of_here.
  - intros r Hr. change (r ∈ [reportA]) in Hr.
    apply list_elem_of_singleton in Hr as ->. apply list_elem_of_here.
Defined.

(** ** The identifier list and the lookup maps *)

Lemma foldl_set_add_sublist (xs acc : list string) :
  ∃ added : list string,
    foldl Js.set_add acc xs = (acc ++ added)%list ∧ added `sublist_of` xs.
Proof.
  revert acc. induction xs as [|x xs IH]; intros acc; cbn [foldl].
  - exists []. split; [now rewrite app_nil_r | constructor].
  - destruct (IH (Js.set_add acc x)) as (added & -> & Hsub).
    unfold Js.set_add. case_bool_decide.
    + exists added. split; [reflexivity|]. now apply sublist_cons.
    + exists (x :: added). split; [now rewrite <- app_assoc|].
      now apply sublist_skip.
Qed.

Lemma filter_sublist {A : Type} (f : A → bool) (l : list A) :
  List.filter f l `sublist_of` l.
Proof.
  induction l as [|x l IH]; cbn; [constructor|].
  destruct (f x); [now apply sublist_skip | now apply sublist_cons].
Qed.

Lemma foldl_set_add_first_occurrences (xs acc : list string) :
  foldl Js.set_add acc xs =
  (acc ++ filter (λ y, y ∉ acc) (first_occurrences xs))%list.
Proof.
  revert acc. induction xs as [|x xs IH]; intros acc; cbn [foldl first_occurrences].
  - now rewrite filter_nil, app_nil_r.
  - rewrite IH, filter_cons. unfold Js.set_add.
    case_bool_decide as Hx.
    + rewrite decide_False by (intros Hn; now apply Hn).
      f_equal. rewrite list_filter_filter. apply list_filter_iff.
      intros y. split; [|tauto]. intros Hy. split; [exact Hy|].
      intros ->. now apply Hy.
    + rewrite decide_True by exact Hx.
      rewrite <- app_assoc. cbn [app]. do 2 f_equal.
      rewrite list_filter_filter. apply list_filter_iff.
      intros y. rewrite not_elem_of_app, list_elem_of_singleton. tauto.
Qed.

Lemma array_from_set_first_occurrences (xs : list string) :
  Js.array_from_set xs = first_occurrences xs.
Proof.
  unfold Js.array_from_set. rewrite foldl_set_add_first_occurrences.
  cbn [app]. induction (first_occurrences xs) as [|y l IH]; [reflexivity|].
  rewrite filter_cons_True by apply not_elem_of_nil. now rewrite IH.
Qed.

(** In [first_occurrences l] a value stands before another one only if it
    occurs in [l] before every occurrence of the other. *)
Lemma first_occurrences_order (l : list string) (a b : string) :
  [a; b] `sublist_of` first_occurrences l →
  ∃ before after,
    l = (before ++ a :: after)%list ∧ (b ∉ before) ∧ a ≠ b.
Proof.
  induction l as [|x l IH]; cbn [first_occurrences]; intros Hab.
  - apply sublist_nil_r in Hab. discriminate Hab.
  - apply sublist_cons_r in Hab as [Hab|(tail & [= <- <-] & Hb)].
    + assert (Hbx : b ≠ x).
      { assert (Hin : b ∈ filter (λ y, y ≠ x) (first_occurrences l)).
        { eapply elem_of_sublist; [|exact Hab].
          apply list_elem_of_further, list_elem_of_here. }
        now apply list_elem_of_filter in Hin as [Hne _]. }
      destruct IH as (before & after & -> & Hbefore & Hne).
      { etransitivity; [exact Hab | apply sublist_filter]. }
      exists (x :: before), after. split; [reflexivity|].
      split; [|exact Hne]. rewrite not_elem_of_cons. now split.
    + apply singleton_sublist_l, list_elem_of_filter in Hb as [Hne _].
      exists [], l. split; [reflexivity|].
      split; [apply not_elem_of_nil | congruence].
Qed.

Lemma filter_split {A : Type} (f : A → bool) (l l1 l2 : list A) (a : A) :
  List.filter f l = (l1 ++ a :: l2)%list →
  ∃ m1 m2, l = (m1 ++ a :: m2)%list ∧ List.filter f m1 = l1.
Proof.
  revert l1. induction l as [|y l IH]; intros l1 H; cbn in H.
  - now destruct l1.
  - destruct (f y) eqn:Hy.
    + destruct l1 as [|z l1]; cbn in H.
      * injection H as -> _. now exists [], l.
      * injection H as -> H. destruct (IH _ H) as (m1 & m2 & -> & <-).
        exists (z :: m1), m2. split; [reflexivity|]. cbn. now rewrite Hy.
    + destruct (IH _ H) as (m1 & m2 & -> & <-).
      exists (y :: m1), m2. split; [reflexivity|]. cbn. now rewrite Hy.
Qed.

(** X7: the identifiers sent to the dependent lookups are the non-empty
    isins of the events, each kept once, at the place of its first
    occurrence: an identifier stands before another in the list only if
    it occurs among the isins of the events before every occurrence of
    the other.  The list is a subsequence of the isins of the events, so
    it has at most as many entries as there are events. *)
Theorem isins_subsequence (rows : list EarningsRow.t) :
  isins_of rows =
    first_occurrences (List.filter Js.truthy (map EarningsRow.isin rows)) ∧
  (∀ a b : string,
     [a; b] `sublist_of` isins_of rows →
     a ≠ b ∧
     ∃ before after,
       map EarningsRow.isin rows = (before ++ a :: after)%list ∧
       b ∉ before) ∧
  isins_of rows `sublist_of` map EarningsRow.isin rows ∧
  (length (isins_of rows) ≤ length rows)%nat.
Proof.
  assert (Hfirst : isins_of rows =
            first_occurrences (List.filter Js.truthy (map EarningsRow.isin rows))).
  { apply array_from_set_first_occurrences. }
  assert (Hsub : isins_of rows `sublist_of` map EarningsRow.isin rows).
  { unfold isins_of, Js.array_from_set.
    destruct (foldl_set_add_sublist
                (List.filter Js.truthy (map EarningsRow.isin rows)) [])
      as (added & -> & Hadded).
    cbn [app]. etransitivity; [exact Hadded | apply filter_sublist]. }
  split; [exact Hfirst|]. split; [|split; [exact Hsub|]].
  - intros a b Hab.
    assert (Hb : b ≠ "").
    { assert (Hin : b ∈ isins_of rows).
      { eapply elem_of_sublist; [|exact Hab].
        apply list_elem_of_further, list_elem_of_here. }
      now apply isins_of_elem in Hin as [Hne _]. }
    rewrite Hfirst in Hab.
    apply first_occurrences_order in Hab as (l1 & l2 & Hsplit & Hbefore & Hne).
    split; [exact Hne|].
    apply filter_split in Hsplit as (before & after & -> & <-).
    exists before, after. split; [reflexivity|].
    intros Hin. apply Hbefore.
    apply list_elem_of_In, filter_In. split; [now apply list_elem_of_In|].
    now apply truthy_nonempty.
  - apply sublist_length in Hsub. now rewrite length_map in Hsub.
Qed.

Lemma isins_subsequence_witness :
  [isinB; isinA] `sublist_of` isins_of [event_blank; event_today; eventA; eventB] ∧
  isins_of [event_blank; event_today; eventA; eventB] = [isinB; isinA] ∧
  isinB ≠ isinA ∧
  ∃ before after,
    map EarningsRow.isin [event_blank; event_today; eventA; eventB] =
      (before ++ isinB :: after)%list ∧
    isinA ∉ before.
Proof.
  assert (H : [isinB; isinA] `sublist_of`
              isins_of [event_blank; event_today; eventA; eventB]).
  { change (isins_of [event_blank; event_today; eventA; eventB])
      with [isinB; isinA]. reflexivity. }
  split; [exact H|]. split; [reflexivity|].
  exact (proj1 (proj2 (isins_subsequence
                         [event_blank; event_today; eventA; eventB])) _ _ H).
Defined.

Section UniqueKeys.

Context {A : Type} (key : A → string).

Lemma filter_key_absent (rows : list A) (k : string) :
  k ∉ key <$> rows → filter (λ r, key r = k) rows = [].
Proof.
  induction rows as [|r rows IH]; intros Hk; [reflexivity|].
  rewrite fmap_cons, not_elem_of_cons in Hk. destruct Hk as [Hne Hk].
  rewrite filter_cons. destruct (decide (key r = k)) as [Heq|_]; [|now apply IH].
  now destruct Hne.
Qed.

Lemma filter_key_unique (rows : list A) (p : A) :
  NoDup (key <$> rows) → p ∈ rows →
  filter (λ r, key r = key p) rows = [p].
Proof.
  induction rows as [|r rows IH]; intros Hdup Hp.
  - now apply elem_of_nil in Hp.
  - rewrite fmap_cons in Hdup. apply NoDup_cons in Hdup as [Hfresh Hdup].
    rewrite filter_cons. apply elem_of_cons in Hp as [->|Hp].
    + destruct (decide (key r = key r)) as [_|Hne]; [|now destruct Hne].
      f_equal. now apply filter_key_absent.
    + destruct (decide (key r = key p)) as [Hk|_]; [|now apply IH].
      destruct Hfresh. rewrite Hk. now apply list_elem_of_fmap_2.
Qed.

End UniqueKeys.

Lemma NoDup_fmap_filter {A B : Type} (f : A → B) (g : A → bool) (l : list A) :
  NoDup (f <$> l) → NoDup (f <$> List.filter g l).
Proof.
  induction l as [|x l IH]; cbn; [intros; constructor|].
  rewrite NoDup_cons. intros [Hx Hl]. destruct (g x); [|now apply IH].
  rewrite fmap_cons. apply NoDup_cons. split; [|now apply IH].
  intros Hin. apply Hx.
  apply list_elem_of_fmap in Hin as (y & -> & Hy).
  apply list_elem_of_fmap_2.
  apply list_elem_of_In, filter_In in Hy as [Hy _]. now apply list_elem_of_In.
Qed.

(** X8: when the rows of a lookup result have pairwise distinct
    identifiers, no row is shadowed: a record whose identifier is that of
    a company row gets that very row, and a record whose identifier is
    that of a report row with a non-empty storage URL gets that very
    row. *)
Theorem distinct_rows_attached_as_they_are (w : World) (c : CalendarRow.t) :
  c ∈ (loadUpcomingEarnings w).1 →
  (NoDup (CompanyRow.isin <$> company_rows w) →
   ∀ p, p ∈ company_rows w → CompanyRow.isin p = CalendarRow.isin c →
        CalendarRow.company c = Some p) ∧
  (NoDup (ReportRow.isin <$> report_rows w) →
   ∀ r, r ∈ report_rows w → ReportRow.isin r = CalendarRow.isin c →
        Js.truthy_opt (ReportRow.storage_url r) = true →
        CalendarRow.report c = Some r).
Proof.
  intros Hc. apply elem_of_load in Hc as (row & _ & ->). cbn. split.
  - intros Hdup p Hp Hk. rewrite companies_of_lookup, <- Hk.
    now rewrite (filter_key_unique CompanyRow.isin).
  - intros Hdup r Hr Hk Hurl. rewrite reports_of_lookup, <- Hk.
    rewrite (filter_key_unique ReportRow.isin); [reflexivity| |].
    + now apply NoDup_fmap_filter.
    + apply list_elem_of_In, filter_In. split; [now apply list_elem_of_In | exact Hurl].
Qed.

Lemma distinct_rows_attached_as_they_are_witness :
  ∃ c : CalendarRow.t,
    c ∈ (loadUpcomingEarnings world_healthy).1 ∧
    CalendarRow.id c = 1%Z ∧
    CalendarRow.company c = Some companyA ∧
    CalendarRow.report c = Some reportA.
Proof.
  pose (c := enrich (companies_of (company_rows world_healthy))
               (reports_of (report_rows world_healthy)) eventA).
  assert (Hin : c ∈ (loadUpcomingEarnings world_healthy).1).
  { apply elem_of_load. exists eventA. split; [|reflexivity].
    apply list_elem_of_further, list_elem_of_here. }
  exists c. split; [exact Hin|]. split; [reflexivity|].
  destruct (distinct_rows_attached_as_they_are world_healthy c Hin) as [H1 H2].
  split.
  - apply H1; [|apply list_elem_of_here|reflexivity].
    change (NoDup [isinA; isinB]). apply NoDup_cons. split; [|apply NoDup_singleton].
    intros H. apply list_elem_of_singleton in H. discriminate H.
  - apply H2; [|apply list_elem_of_here|reflexivity|reflexivity].
    change (NoDup [isinA]). apply NoDup_singleton.
Defined.

(** ** Display strings *)

(** X9: the fallback [tickerLine || row.isin] of the table never changes
    what is shown: the joined string already contains the identifier, so
    it is empty only when the identifier is. *)
Theorem tickerLine_fallback_inert (row : CalendarRow.t) :
  tickerLine row = formatTicker row.
Proof.
  unfold tickerLine, Js.or_else.
  destruct (formatTicker row) as [|a s] eqn:Hline; [|reflexivity].
  cbn. now apply formatTicker_empty.
Qed.

(** X10: a record with a non-empty identifier never shows an empty company
    name or an empty ticker line, with or without a profile. *)
Theorem display_strings_nonempty (row : CalendarRow.t) :
  CalendarRow.isin row ≠ "" →
  formatCompany row ≠ "" ∧ formatTicker row ≠ "" ∧ tickerLine row ≠ "".
Proof.
  intros Hisin.
  assert (Hticker : formatTicker row ≠ "").
  { intros H. now apply formatTicker_empty in H. }
  split; [|split; [exact Hticker|]].
  - unfold formatCompany, Js.or_else.
    destruct (Js.or_opt _ _) as [s|]; [|exact Hisin].
    destruct s; [exact Hisin | discriminate].
  - unfold tickerLine, Js.or_else.
    destruct (formatTicker row); [now destruct Hticker | discriminate].
Qed.

Lemma display_strings_nonempty_witness :
  CalendarRow.isin recordB_bare ≠ "" ∧
  formatCompany recordB_bare ≠ "" ∧ formatTicker recordB_bare ≠ "" ∧
  tickerLine recordB_bare ≠ "".
Proof.
  assert (H : CalendarRow.isin recordB_bare ≠ "") by discriminate.
  split; [exact H|]. exact (display_strings_nonempty recordB_bare H).
Defined.

(** * The page *)

Section HomeFacts.

Variable NumberFormat : string → NumberFormatOptions → float → string.
Variable DateFormat :
  string → DateTimeFormat.Options → string → option string.

Local Abbreviation render_row := (renderRow NumberFormat DateFormat).
Local Abbreviation render_body := (renderBody NumberFormat DateFormat).
Local Abbreviation home := (Home NumberFormat DateFormat).

Lemma Home_value (w : World) (renderClock : string) :
  (home w renderClock).1 =
  (tableBody ← render_body (loadUpcomingEarnings w).1;
   Some {| totalUpcoming := length (loadUpcomingEarnings w).1;
           reportingToday :=
             upcomingCount (String.substring 0 10 renderClock)
               (loadUpcomingEarnings w).1;
           sourcesLine :=
             Js.or_else
               (Some (Js.join ", " (Some <$> sources_of (loadUpcomingEarnings w).1)))
               dash;
           body := tableBody |}).
Proof. reflexivity. Qed.

Lemma Home_Some (w : World) (renderClock : string) (page : Page) :
  (home w renderClock).1 = Some page →
  render_body (loadUpcomingEarnings w).1 = Some (body page) ∧
  totalUpcoming page = length (loadUpcomingEarnings w).1 ∧
  reportingToday page =
    upcomingCount (String.substring 0 10 renderClock) (loadUpcomingEarnings w).1 ∧
  sourcesLine page =
    Js.or_else
      (Some (Js.join ", " (Some <$> sources_of (loadUpcomingEarnings w).1))) dash.
Proof.
  rewrite Home_value.
  destruct (render_body (loadUpcomingEarnings w).1) as [tb|]; [|discriminate].
  cbn. intros [= <-]. cbn. repeat split; reflexivity.
Qed.

Lemma renderBody_rows (rows : list CalendarRow.t) (views : list RowView) :
  render_body rows = Some (TableRows views) →
  rows ≠ [] ∧ Forall2 (λ c v, render_row c = Some v) rows views.
Proof.
  unfold renderBody. destruct rows as [|c rows]; [discriminate|].
  cbn [length Nat.eqb]. intros H. split; [discriminate|].
  apply mapM_Some. destruct (mapM render_row (c :: rows)); [|discriminate H].
  cbn in H. now injection H as ->.
Qed.

Lemma renderRow_cells (c : CalendarRow.t) (v : RowView) :
  render_row c = Some v →
  key v = CalendarRow.id c ∧
  companyCell v = formatCompany c ∧
  tickerCell v = tickerLine c ∧
  sectorCell v = Js.nullish (CalendarRow.company c ≫= CompanyRow.gics_sector) dash ∧
  industryCell v = Js.nullish (CalendarRow.company c ≫= CompanyRow.gics_industry) "" ∧
  marketCapCell v =
    formatMarketCap NumberFormat
      (CalendarRow.company c ≫= CompanyRow.market_cap_millions_usd) ∧
  sourceCell v = Js.nullish (CalendarRow.source c) "Unknown" ∧
  previewCell v = preview_of c.
Proof.
  unfold renderRow.
  destruct (formatDate DateFormat (CalendarRow.date c)); [|discriminate].
  destruct (formatDateTime DateFormat (CalendarRow.created_at c));
    [|discriminate].
  cbn. intros [= <-]. cbn. repeat split; reflexivity.
Qed.

Lemma renderRow_None (c : CalendarRow.t) :
  render_row c = None ↔
  formatDate DateFormat (CalendarRow.date c) = None ∨
  formatDateTime DateFormat (CalendarRow.created_at c) = None.
Proof.
  unfold renderRow.
  destruct (formatDate DateFormat (CalendarRow.date c));
    destruct (formatDateTime DateFormat (CalendarRow.created_at c)); cbn;
    split; try tauto; try discriminate; intros [H|H]; discriminate H.
Qed.

(** X11: when the primary query fails or answers no rows, the page still
    renders, whatever the platform formatters do: both counters are 0,
    the sources line is the dash and the table shows the empty-state
    notice. *)
Theorem Home_empty_state (w : World) (renderClock : string) :
  is_Some (error (primary_response w)) ∨ primary_rows w = [] →
  (home w renderClock).1 =
  Some {| totalUpcoming := 0;
          reportingToday := 0;
          sourcesLine := dash;
          body := EmptyNotice "No upcoming earnings found." |}.
Proof.
  intros H.
  assert (Hrows : primary_rows w = []).
  { destruct H as [H|H]; [now apply primary_rows_of_failure | exact H]. }
  rewrite Home_value, load_value, Hrows. reflexivity.
Qed.

(** X12: rendering aborts exactly when the date formatter rejects the date
    or the creation timestamp of some returned event; otherwise [Home]
    returns a page. *)
Theorem Home_aborts_iff (w : World) (renderClock : string) :
  (home w renderClock).1 = None ↔
  ∃ row : EarningsRow.t,
    row ∈ primary_rows w ∧
    (formatDate DateFormat (EarningsRow.date row) = None ∨
     formatDateTime DateFormat (EarningsRow.created_at row) = None).
Proof.
  rewrite Home_value.
  transitivity (render_body (loadUpcomingEarnings w).1 = None).
  { destruct (render_body (loadUpcomingEarnings w).1); cbn;
      split; congruence. }
  transitivity (Exists (λ c, render_row c = None) (loadUpcomingEarnings w).1).
  { unfold renderBody.
    destruct (loadUpcomingEarnings w).1 as [|c rows]; cbn [length Nat.eqb].
    - rewrite Exists_nil. split; [discriminate | tauto].
    - rewrite <- mapM_None.
      destruct (mapM render_row (c :: rows)); cbn; split; congruence. }
  rewrite Exists_exists. split.
  - intros (c & Hc & Hnone). apply elem_of_load in Hc as (row & Hrow & ->).
    exists row. split; [exact Hrow|]. now apply renderRow_None in Hnone.
  - intros (row & Hrow & Hnone).
    exists (enrich (companies_of (company_rows w)) (reports_of (report_rows w)) row).
    split; [apply elem_of_load; now exists row|].
    now apply renderRow_None.
Qed.

Lemma filter_map_enrich (f : string → bool) companies reports
    (rows : list EarningsRow.t) :
  length (List.filter (λ c, f (CalendarRow.date c))
            (map (enrich companies reports) rows)) =
  length (List.filter (λ row, f (EarningsRow.date row)) rows).
Proof.
  induction rows as [|row rows IH]; [reflexivity|]. cbn.
  destruct (f (EarningsRow.date row)); cbn; now rewrite IH.
Qed.

Lemma rendered_keys (rows : list CalendarRow.t) (views : list RowView) :
  Forall2 (λ c v, render_row c = Some v) rows views →
  map key views = map CalendarRow.id rows.
Proof.
  induction 1 as [|c v rows views Hcv _ IH]; [reflexivity|].
  cbn. rewrite IH. f_equal. now apply renderRow_cells in Hcv as [-> _].
Qed.

(** X13: on a rendered page the total is the number of rows of the primary
    query; "reporting today" is the number of those rows whose date is the
    first ten characters of the render clock, hence at most the total;
    the table shows the notice exactly when there is no row, and otherwise
    one table row per event, keyed by the event ids in order. *)
Theorem Home_header_and_rows (w : World) (renderClock : string) (page : Page) :
  (home w renderClock).1 = Some page →
  totalUpcoming page = length (primary_rows w) ∧
  reportingToday page =
    length (List.filter
              (λ row, String.eqb (EarningsRow.date row)
                        (String.substring 0 10 renderClock))
              (primary_rows w)) ∧
  (reportingToday page ≤ totalUpcoming page)%nat ∧
  match body page with
  | EmptyNotice _ => primary_rows w = []
  | TableRows views =>
      primary_rows w ≠ [] ∧
      length views = length (primary_rows w) ∧
      map key views = map EarningsRow.id (primary_rows w)
  end.
Proof.
  intros Hpage. apply Home_Some in Hpage as (Hbody & -> & Htoday & _).
  assert (Hcount : reportingToday page =
                   length (List.filter
                             (λ row, String.eqb (EarningsRow.date row)
                                       (String.substring 0 10 renderClock))
                             (primary_rows w))).
  { rewrite Htoday. unfold upcomingCount. rewrite load_value.
    apply (filter_map_enrich (λ d, String.eqb d (String.substring 0 10 renderClock))). }
  assert (Hlen : length (loadUpcomingEarnings w).1 = length (primary_rows w)).
  { rewrite load_value. apply length_map. }
  split; [exact Hlen|]. split; [exact Hcount|]. split.
  { rewrite Hcount, Hlen. apply filter_length_le. }
  destruct (body page) as [text|views].
  - unfold renderBody in Hbody. apply length_zero_iff_nil. rewrite <- Hlen.
    destruct (loadUpcomingEarnings w).1 as [|c rows]; [reflexivity|].
    cbn [length Nat.eqb] in Hbody.
    destruct (mapM render_row (c :: rows)); discriminate Hbody.
  - apply renderBody_rows in Hbody as [Hne Hviews].
    split; [|split].
    + intros Hnil. apply Hne. apply length_zero_iff_nil.
      rewrite Hlen, Hnil. reflexivity.
    + rewrite <- Hlen. symmetry. now apply Forall2_length in Hviews.
    + rewrite (rendered_keys _ _ Hviews), <- (map_earnings_load w), map_map.
      reflexivity.
Qed.

Lemma sources_of_elem (w : World) (s : string) :
  s ∈ sources_of (loadUpcomingEarnings w).1 ↔
  ∃ row, row ∈ primary_rows w ∧ s = Js.nullish (EarningsRow.source row) "Unknown".
Proof.
  unfold sources_of, Js.array_from_set.
  rewrite foldl_set_add_elem, elem_of_nil, load_value, map_map.
  change (map ?f ?l) with (f <$> l). rewrite list_elem_of_fmap. cbn.
  split.
  - intros [[]|(row & Hs & Hrow)]. now exists row.
  - intros (row & Hrow & Hs). right. now exists row.
Qed.

(** X14: the source labels of the header are pairwise distinct; a label is
    listed exactly when some returned event has it as its source, an event
    without a source counting as "Unknown" (so it shares the label of an
    event whose source is the text "Unknown"); the line shown is the
    labels joined by ", ", or the dash when that string is empty. *)
Theorem Home_sources (w : World) (renderClock : string) (page : Page) :
  (home w renderClock).1 = Some page →
  NoDup (sources_of (loadUpcomingEarnings w).1) ∧
  (∀ s : string,
     s ∈ sources_of (loadUpcomingEarnings w).1 ↔
     ∃ row, row ∈ primary_rows w ∧
            s = Js.nullish (EarningsRow.source row) "Unknown") ∧
  sourcesLine page =
    (if String.eqb (String.concat ", " (sources_of (loadUpcomingEarnings w).1)) ""
     then dash
     else String.concat ", " (sources_of (loadUpcomingEarnings w).1)).
Proof.
  intros Hpage. apply Home_Some in Hpage as (_ & _ & _ & ->).
  split; [apply foldl_set_add_NoDup, NoDup_nil_2|].
  split; [apply sources_of_elem|].
  rewrite join_Some. unfold Js.or_else.
  destruct (String.concat ", " (sources_of (loadUpcomingEarnings w).1));
    reflexivity.
Qed.

(** X15: on a rendered page the preview cell of a table row is a link
    exactly when the record has a report, and the link then points to the
    storage URL of that report, which is not empty; a record without a
    report shows the dash. *)
Theorem Home_preview_links (w : World) (renderClock : string) (page : Page)
    (views : list RowView) :
  (home w renderClock).1 = Some page →
  body page = TableRows views →
  Forall2
    (λ c v,
       (CalendarRow.report c = None ∧ previewCell v = PreviewDash) ∨
       (∃ r url, CalendarRow.report c = Some r ∧
                 ReportRow.storage_url r = Some url ∧ url ≠ "" ∧
                 previewCell v = PreviewLink url))
    (loadUpcomingEarnings w).1 views.
Proof.
  intros Hpage Hviews. apply Home_Some in Hpage as (Hbody & _).
  rewrite Hviews in Hbody. apply renderBody_rows in Hbody as [_ Hrows].
  rewrite load_value in Hrows |- *.
  apply Forall2_fmap_l. apply Forall2_fmap_l in Hrows.
  eapply Forall2_impl; [exact Hrows|]. cbn. intros row v Hv.
  apply renderRow_cells in Hv as (_ & _ & _ & _ & _ & _ & _ & ->).
  unfold preview_of. cbn.
  destruct (reports_of (report_rows w) !! EarningsRow.isin row) as [r|] eqn:Hr.
  - right. apply reports_of_Some in Hr as (_ & _ & url & Hurl & Hne).
    exists r, url. cbn. rewrite Hurl.
    destruct url; [now destruct Hne|]. cbn. repeat split; congruence.
  - left. split; reflexivity.
Qed.

Lemma unenriched_cells (c : CalendarRow.t) :
  CalendarRow.company c = None →
  formatCompany c = CalendarRow.isin c ∧ tickerLine c = CalendarRow.isin c.
Proof.
  intros Hc. unfold formatCompany, tickerLine, formatTicker. rewrite Hc. cbn.
  destruct (CalendarRow.isin c); split; reflexivity.
Qed.

(** X16: when the company lookup fails, every table row of the rendered
    page falls back on the identifier: the company name and the ticker
    line are the bare identifier, the industry is empty, and the sector
    and the market capitalization are the dash. *)
Theorem Home_without_companies (w : World) (renderClock : string)
    (page : Page) (views : list RowView) (err : PostgrestError) :
  companies_result w = Failure err →
  (home w renderClock).1 = Some page →
  body page = TableRows views →
  Forall2
    (λ row v,
       companyCell v = EarningsRow.isin row ∧
       tickerCell v = EarningsRow.isin row ∧
       sectorCell v = dash ∧
       industryCell v = "" ∧
       marketCapCell v = dash)
    (primary_rows w) views.
Proof.
  intros Hfail Hpage Hviews. apply Home_Some in Hpage as (Hbody & _).
  rewrite Hviews in Hbody. apply renderBody_rows in Hbody as [_ Hrows].
  assert (Hnone : company_rows w = []).
  { unfold company_rows. rewrite Hfail. reflexivity. }
  rewrite load_value, Hnone in Hrows. apply Forall2_fmap_l in Hrows.
  eapply Forall2_impl; [exact Hrows|]. intros row v Hv. cbv beta in Hv |- *.
  apply renderRow_cells in Hv as (_ & -> & -> & -> & -> & -> & _).
  destruct (unenriched_cells (enrich (companies_of []) (reports_of (report_rows w)) row))
    as [-> ->]; [apply lookup_empty|].
  cbn. rewrite lookup_empty. repeat split; reflexivity.
Qed.

End HomeFacts.

Lemma Home_empty_state_witness :
  (is_Some (error (primary_response world_primary_down)) ∨
   primary_rows world_primary_down = []) ∧
  (Home sample_format sample_date_format world_primary_down late_evening).1 =
  Some {| totalUpcoming := 0;
          reportingToday := 0;
          sourcesLine := dash;
          body := EmptyNotice "No upcoming earnings found." |}.
Proof.
  assert (H : is_Some (error (primary_response world_primary_down)) ∨
              primary_rows world_primary_down = []).
  { left. eexists. reflexivity. }
  split; [exact H|].
  exact (Home_empty_state sample_format sample_date_format
           world_primary_down late_evening H).
Defined.

Lemma Home_header_and_rows_witness :
  ∃ (page : Page) (views : list RowView),
    (Home sample_format sample_date_format world_healthy late_evening).1 = Some page ∧
    totalUpcoming page = 3%nat ∧
    reportingToday page = 1%nat ∧
    body page = TableRows views ∧
    map key views = [5; 1; 2]%Z.
Proof.
  assert (H : (Home sample_format sample_date_format world_healthy late_evening).1
              = Some page_healthy) by (vm_compute; reflexivity).
  destruct (Home_header_and_rows sample_format sample_date_format
              world_healthy late_evening page_healthy H)
    as (Htotal & Htoday & _ & Hbody).
  exists page_healthy. eexists.
  split; [exact H|]. split; [exact Htotal|]. split; [exact Htoday|].
  split; [reflexivity|]. exact (proj2 (proj2 Hbody)).
Defined.

Lemma Home_sources_witness :
  ∃ page : Page,
    (Home sample_format sample_date_format world_healthy late_evening).1 = Some page ∧
    sourcesLine page = "Unknown, nasdaq" ∧
    (event_today ∈ primary_rows world_healthy ∧
     EarningsRow.source event_today = Some "Unknown") ∧
    (eventB ∈ primary_rows world_healthy ∧ EarningsRow.source eventB = None) ∧
    NoDup (sources_of (loadUpcomingEarnings world_healthy).1).
Proof.
  assert (H : (Home sample_format sample_date_format world_healthy late_evening).1
              = Some page_healthy) by (vm_compute; reflexivity).
  destruct (Home_sources sample_format sample_date_format
              world_healthy late_evening page_healthy H)
    as (Hdistinct & _ & Hline).
  exists page_healthy.
  split; [exact H|]. split; [exact Hline|].
  split; [split; [apply list_elem_of_here | reflexivity]|].
  split; [|exact Hdistinct].
  split; [|reflexivity]. do 2 apply list_elem_of_further. apply list_elem_of_here.
Defined.

Lemma Home_preview_links_witness :
  ∃ (page : Page) (views : list RowView),
    (Home sample_format sample_date_format world_healthy late_evening).1 = Some page ∧
    body page = TableRows views ∧
    map previewCell views =
      [PreviewDash; PreviewLink "https://reports.example/a.pdf"; PreviewDash] ∧
    Forall2
      (λ c v,
         (CalendarRow.report c = None ∧ previewCell v = PreviewDash) ∨
         (∃ r url, CalendarRow.report c = Some r ∧
                   ReportRow.storage_url r = Some url ∧ url ≠ "" ∧
                   previewCell v = PreviewLink url))
      (loadUpcomingEarnings world_healthy).1 views.
Proof.
  assert (H : (Home sample_format sample_date_format world_healthy late_evening).1
              = Some page_healthy) by (vm_compute; reflexivity).
  exists page_healthy. eexists.
  split; [exact H|]. split; [reflexivity|]. split; [reflexivity|].
  exact (Home_preview_links sample_format sample_date_format
           world_healthy late_evening page_healthy _ H eq_refl).
Defined.

Lemma Home_without_companies_witness :
  ∃ (page : Page) (views : list RowView),
    companies_result world_company_down =
      Failure {| message := "permission denied" |} ∧
    (Home sample_format sample_date_format world_company_down late_evening).1
      = Some page ∧
    body page = TableRows views ∧
    map companyCell views = [isinA; isinB] ∧
    Forall2
      (λ row v,
         companyCell v = EarningsRow.isin row ∧
         tickerCell v = EarningsRow.isin row ∧
         sectorCell v = dash ∧
         industryCell v = "" ∧
         marketCapCell v = dash)
      (primary_rows world_company_down) views.
Proof.
  assert (Hfail : companies_result world_company_down =
                  Failure {| message := "permission denied" |}) by reflexivity.
  assert (H : (Home sample_format sample_date_format world_company_down
                 late_evening).1 = Some page_company_down)
    by (vm_compute; reflexivity).
  exists page_company_down. eexists.
  split; [exact Hfail|]. split; [exact H|]. split; [reflexivity|].
  split; [reflexivity|].
  exact (Home_without_companies sample_format sample_date_format
           world_company_down late_evening page_company_down _ _ Hfail H eq_refl).
Defined.

(** * The client initializer *)

Lemma truthy_false_empty (s : string) : Js.truthy s = false ↔ s = "".
Proof. destruct s; cbn; split; congruence. Qed.

(** X17: [createClient] is reached exactly when the service role key is
    set and not empty and an endpoint is available: either [SUPABASE_URL]
    itself, set and not empty, or, when [SUPABASE_URL] is not set at all,
    the URL built from a non-empty project id.  The client is then created
    with that endpoint and that key; a set [SUPABASE_URL] always wins over
    the project id. *)
Theorem init_creates_client_iff (env : Config.Env) (url serviceRoleKey : string) :
  Config.init env = Config.CreateClient url serviceRoleKey ↔
  url ≠ "" ∧ serviceRoleKey ≠ "" ∧
  Config.SUPABASE_SERVICE_ROLE_KEY env = Some serviceRoleKey ∧
  (Config.SUPABASE_URL env = Some url ∨
   (Config.SUPABASE_URL env = None ∧
    ∃ projectId, Config.SUPABASE_PROJECT_ID env = Some projectId ∧
                 projectId ≠ "" ∧
                 url = "https://" ++ projectId ++ ".supabase.co")).
Proof.
  unfold Config.init, Config.supabaseUrl.
  destruct env as [pid envUrl key]; cbn. split.
  - intros H.
    assert (Hurl : ∃ u, match envUrl with
                        | Some u' => Some u'
                        | None =>
                            match pid with
                            | Some p =>
                                if Js.truthy p
                                then Some ("https://" ++ p ++ ".supabase.co")
                                else None
                            | None => None
                            end
                        end = Some u).
    { destruct envUrl; [eauto|]. destruct pid as [p|]; [|discriminate H].
      destruct (Js.truthy p); [eauto | discriminate H]. }
    destruct Hurl as (u & Hu). rewrite Hu in H.
    destruct (Js.truthy u) eqn:Htu; [|discriminate H]. cbn in H.
    destruct key as [k|]; [|discriminate H].
    destruct (Js.truthy k) eqn:Htk; [|discriminate H]. cbn in H.
    injection H as <- <-.
    split; [now apply truthy_nonempty|]. split; [now apply truthy_nonempty|].
    split; [reflexivity|].
    destruct envUrl as [u'|].
    + left. exact Hu.
    + right. split; [reflexivity|]. destruct pid as [p|]; [|discriminate Hu].
      destruct (Js.truthy p) eqn:Htp; [|discriminate Hu].
      injection Hu as <-. exists p. split; [reflexivity|].
      split; [now apply truthy_nonempty | reflexivity].
  - intros (Hu & Hk & -> & Hsrc).
    apply truthy_nonempty in Hu, Hk.
    destruct Hsrc as [->|(-> & p & -> & Hp & Hbuilt)].
    + rewrite Hu, Hk. reflexivity.
    + apply truthy_nonempty in Hp. rewrite Hp, <- Hbuilt, Hu, Hk. reflexivity.
Qed.

Lemma supabaseUrl_unavailable (env : Config.Env) :
  Js.truthy_opt (Config.supabaseUrl env) = false ↔
  Config.SUPABASE_URL env = Some "" ∨
  (Config.SUPABASE_URL env = None ∧
   (Config.SUPABASE_PROJECT_ID env = None ∨
    Config.SUPABASE_PROJECT_ID env = Some "")).
Proof.
  unfold Config.supabaseUrl.
  destruct (Config.SUPABASE_URL env) as [[|a u]|]; cbn.
  - split; [now left | reflexivity].
  - split; [discriminate|]. intros [H|[H _]]; discriminate H.
  - destruct (Config.SUPABASE_PROJECT_ID env) as [[|a p]|]; cbn.
    + split; [|reflexivity]. intros _. right. split; [reflexivity | now right].
    + split; [discriminate|].
      intros [H|[_ [H|H]]]; discriminate H.
    + split; [|reflexivity]. intros _. right. split; [reflexivity | now left].
Qed.

(** X18: the initializer throws one of two errors, the endpoint error
    first.  The endpoint error is thrown exactly when [SUPABASE_URL] is
    empty (the project id is then not consulted) or is unset while the
    project id is unset or empty, whether or not the key is set; the key
    error is thrown exactly when an endpoint is available and the key is
    unset or empty. *)
Theorem init_error_precedence (env : Config.Env) :
  (Config.init env = Config.Throw Config.url_error ↔
   Config.SUPABASE_URL env = Some "" ∨
   (Config.SUPABASE_URL env = None ∧
    (Config.SUPABASE_PROJECT_ID env = None ∨
     Config.SUPABASE_PROJECT_ID env = Some ""))) ∧
  (Config.init env = Config.Throw Config.key_error ↔
   Js.truthy_opt (Config.supabaseUrl env) = true ∧
   (Config.SUPABASE_SERVICE_ROLE_KEY env = None ∨
    Config.SUPABASE_SERVICE_ROLE_KEY env = Some "")) ∧
  (∀ message, Config.init env = Config.Throw message →
              message = Config.url_error ∨ message = Config.key_error).
Proof.
  rewrite <- supabaseUrl_unavailable. unfold Config.init.
  destruct (Config.supabaseUrl env) as [u|]; cbn;
    [destruct (Js.truthy u); cbn;
       [destruct (Config.SUPABASE_SERVICE_ROLE_KEY env) as [[|a k]|]; cbn|]|].
  all: repeat split; try discriminate; try tauto; try reflexivity.
  all: try (intros [_ [H|H]]; discriminate H).
  all: try (intros [H _]; discriminate H).
  all: try (intros m [= <-]; tauto).
  all: try (intros _; split; [reflexivity|tauto]).
Qed.

Example init_scenarios :
  map Config.init [env_project_only; env_blank_url; env_both; env_nothing] =
  [ Config.CreateClient "https://abcd1234.supabase.co" "service-key";
    Config.Throw "SUPABASE_URL or SUPABASE_PROJECT_ID must be set";
    Config.CreateClient "https://db.example.test" "service-key";
    Config.Throw "SUPABASE_URL or SUPABASE_PROJECT_ID must be set" ].
Proof. reflexivity. Qed.

(** * The page before enrichment *)

(** X19: given the same clock and the same answer to the primary query, the
    enriched loader returns the rows of the plain loader, each with the
    optional fields added: the two results have the same length and the
    primary fields of the enriched records are the plain rows, in order;
    the plain loader logs exactly when the primary query fails. *)
Theorem enriched_loader_extends_plain (w : World) :
  map CalendarRow.earnings (loadUpcomingEarnings w).1 =
    (Plain.loadUpcomingEarnings (clock w) (earnings_calendar w)).1 ∧
  length (loadUpcomingEarnings w).1 =
    length (Plain.loadUpcomingEarnings (clock w) (earnings_calendar w)).1 ∧
  (∀ label msg,
     Plain.ConsoleError label msg
       ∈ (Plain.loadUpcomingEarnings (clock w) (earnings_calendar w)).2 ↔
     ConsoleError label msg ∈ (loadUpcomingEarnings w).2 ∧
     label = "Failed to load earnings calendar").
Proof.
  assert (Hplain : (Plain.loadUpcomingEarnings (clock w) (earnings_calendar w)).1
                   = primary_rows w).
  { unfold Plain.loadUpcomingEarnings, primary_rows, primary_response, todayIso_of.
    destruct (earnings_calendar w (String.substring 0 10 (clock w)));
      reflexivity. }
  split; [|split].
  - rewrite Hplain. apply map_earnings_load.
  - rewrite Hplain, <- (map_earnings_load w). now rewrite length_map.
  - intros label msg.
    destruct (decide (isins_of (primary_rows w) = [])) as [Hnil|Hne].
    + rewrite (load_trace_no_identifiers w Hnil).
      unfold Plain.loadUpcomingEarnings, primary_response, todayIso_of.
      destruct (earnings_calendar w (String.substring 0 10 (clock w)))
        as [rows|err]; cbn.
      * split.
        -- intros H. apply list_elem_of_singleton in H. discriminate H.
        -- intros [H _]. apply list_elem_of_singleton in H. discriminate H.
      * split.
        -- intros H. apply elem_of_cons in H as [H|H]; [discriminate H|].
           apply list_elem_of_singleton in H. injection H as -> ->.
           split; [|reflexivity]. apply list_elem_of_further, list_elem_of_here.
        -- intros [H _]. apply elem_of_cons in H as [H|H]; [discriminate H|].
           apply list_elem_of_singleton in H. injection H as -> ->.
           apply list_elem_of_further, list_elem_of_here.
    + destruct (primary_of_identifiers w Hne) as [Herr _].
      rewrite (load_trace_identifiers w Hne), !elem_of_app, !elem_of_log_failure.
      unfold Plain.loadUpcomingEarnings, primary_response, todayIso_of in *.
      destruct (earnings_calendar w (String.substring 0 10 (clock w)))
        as [rows|err]; [|discriminate Herr]. cbn.
      split; [intros H; apply list_elem_of_singleton in H; discriminate H|].
      intros [[H|[(-> & _)|(-> & _)]] Hlabel]; [|discriminate Hlabel..].
      repeat (apply elem_of_cons in H as [H|H]; [discriminate H|]).
      now apply elem_of_nil in H.
Qed.
